(** * Casinocoin-Central: the rich-list scan engine of [src/App.tsx]

    A shallow embedding of the scan loop ([startScan]), its cancellation
    ([stopScan]), the aggregation pipeline ([processResults]) and the
    live-update effect of the [App] component, followed by the properties
    the specification states about them.

    Conventions of the embedding.
    - A JavaScript [number] is modelled by [number]: the three special
      values NaN, -Infinity, +Infinity and the finite values, the latter
      as exact rationals.  Comparison, sign tests, subtraction sign and
      the special-value algebra follow ECMAScript; rounding to binary64,
      overflow, underflow and the sign of zero are not modelled.
    - React state is an explicit record [App]; every [setX] call is a
      record update, applied in program order.  The values a function
      reads from the render it was created in are an explicit [Closure].
    - The [async] function [startScan] is split at its single [await]:
      [startScan] runs up to the first page request, [resume] runs from
      the settlement of a page request to the next request or to the end.
    - [fetchTrustlinesBatch] lives in [services/xrplService], outside
      the sources at hand; what its promise settles to is an input.
    - The host is a [World]: the component, the suspended invocations
      of [startScan], the timer table and a clock in milliseconds, moved
      by [Event]s (clicks, settlements of page requests, lapse of time).
*)

From Stdlib Require Import List String Ascii Bool Arith ZArith QArith Qabs Lia.
From Stdlib Require Import Sorted Permutation DecimalString.
From Stdlib Require PrimFloat.
Import ListNotations.

Set Implicit Arguments.

(* ================================================================= *)
(** ** JavaScript numbers *)

Module JS.

Inductive number : Type :=
  | NaN
  | NegInf
  | PosInf
  | Fin (q : Q).

Definition of_Z (z : Z) : number := Fin (z # 1).

Definition Qltb (p q : Q) : bool := negb (Qle_bool q p).

(** [a < b] *)
Definition ltb (a b : number) : bool :=
  match a, b with
  | NaN, _ | _, NaN => false
  | NegInf, NegInf => false
  | NegInf, _ => true
  | _, NegInf => false
  | PosInf, _ => false
  | Fin _, PosInf => true
  | Fin p, Fin q => Qltb p q
  end.

(** [a > b] *)
Definition gtb (a b : number) : bool := ltb b a.

(** [a === b] on numbers *)
Definition eqb (a b : number) : bool :=
  match a, b with
  | NegInf, NegInf | PosInf, PosInf => true
  | Fin p, Fin q => Qeq_bool p q
  | _, _ => false
  end.

(** [a >= b] *)
Definition geb (a b : number) : bool := gtb a b || eqb a b.

(** [a <= b] *)
Definition leb (a b : number) : bool := geb b a.

(** [Math.abs] *)
Definition abs (a : number) : number :=
  match a with
  | NaN => NaN
  | NegInf | PosInf => PosInf
  | Fin q => Fin (Qred (Qabs q))
  end.

(** [a - b] *)
Definition sub (a b : number) : number :=
  match a, b with
  | NaN, _ | _, NaN => NaN
  | PosInf, PosInf | NegInf, NegInf => NaN
  | PosInf, _ => PosInf
  | NegInf, _ => NegInf
  | Fin _, PosInf => NegInf
  | Fin _, NegInf => PosInf
  | Fin p, Fin q => Fin (Qred (p - q))
  end.

(** [a + b] *)
Definition add (a b : number) : number :=
  match a, b with
  | NaN, _ | _, NaN => NaN
  | PosInf, NegInf | NegInf, PosInf => NaN
  | PosInf, _ | _, PosInf => PosInf
  | NegInf, _ | _, NegInf => NegInf
  | Fin p, Fin q => Fin (Qred (p + q))
  end.

Definition neg (a : number) : number :=
  match a with
  | NaN => NaN
  | NegInf => PosInf
  | PosInf => NegInf
  | Fin q => Fin (Qred (- q))
  end.

(** The sign of a non-zero finite operand flips an infinity or keeps it. *)
Definition signed (inf : number) (q : Q) : number :=
  if Qltb q 0 then neg inf else inf.

(** [a * b] *)
Definition mul (a b : number) : number :=
  match a, b with
  | NaN, _ | _, NaN => NaN
  | Fin p, Fin q => Fin (Qred (p * q))
  | Fin p, inf | inf, Fin p => if Qeq_bool p 0 then NaN else signed inf p
  | PosInf, PosInf | NegInf, NegInf => PosInf
  | PosInf, NegInf | NegInf, PosInf => NegInf
  end.

(** [a / b] *)
Definition div (a b : number) : number :=
  match a, b with
  | NaN, _ | _, NaN => NaN
  | Fin p, Fin q =>
      if Qeq_bool q 0
      then (if Qeq_bool p 0 then NaN else signed PosInf p)
      else Fin (Qred (p / q))
  | Fin _, _ => Fin 0
  | inf, Fin q => signed inf q
  | _, _ => NaN
  end.

(** ToBoolean on a number: [0] and [NaN] are falsy. *)
Definition truthy (a : number) : bool :=
  match a with
  | NaN => false
  | Fin q => negb (Qeq_bool q 0)
  | _ => true
  end.

(** *** [parseFloat]

    Leading white space (the ASCII white space and line terminators)
    is skipped, then the longest prefix that is a decimal literal (sign,
    digits, fraction, exponent, or [Infinity]) is read; with no such
    prefix the result is NaN.  The value read is exact. *)

Definition is_ws (c : ascii) : bool :=
  let n := nat_of_ascii c in
  (((9 <=? n) && (n <=? 13)) || (n =? 32))%nat.

Fixpoint skip_ws (s : list ascii) : list ascii :=
  match s with
  | c :: s' => if is_ws c then skip_ws s' else s
  | [] => []
  end.

Definition digit_of (c : ascii) : option Z :=
  let n := Z.of_nat (nat_of_ascii c) in
  if ((48 <=? n) && (n <=? 57))%Z then Some (n - 48)%Z else None.

(** Reads a run of digits: the value accumulated on [acc], the number of
    digits read, and the rest of the input. *)
Fixpoint read_digits (s : list ascii) (acc : Z) (cnt : nat)
  : Z * nat * list ascii :=
  match s with
  | c :: s' =>
      match digit_of c with
      | Some d => read_digits s' (10 * acc + d)%Z (S cnt)
      | None => (acc, cnt, s)
      end
  | [] => (acc, cnt, [])
  end.

Fixpoint starts_with (p s : list ascii) : bool :=
  match p, s with
  | [], _ => true
  | a :: p', b :: s' => Ascii.eqb a b && starts_with p' s'
  | _ :: _, [] => false
  end.

Definition read_sign (s : list ascii) : bool * list ascii :=
  match s with
  | "-"%char :: t => (true, t)
  | "+"%char :: t => (false, t)
  | _ => (false, s)
  end.

(** The exponent part, [0] when there is none (an [e] not followed by
    digits is not part of the literal). *)
Definition read_exponent (s : list ascii) : Z :=
  match s with
  | c :: t =>
      if Ascii.eqb c "e" || Ascii.eqb c "E" then
        let '(sg, t') := read_sign t in
        let '(e, n, _) := read_digits t' 0%Z 0 in
        if (n =? 0)%nat then 0%Z else if sg then (- e)%Z else e
      else 0%Z
  | [] => 0%Z
  end.

Definition parseFloat (str : string) : number :=
  let s := skip_ws (list_ascii_of_string str) in
  let '(sg, s0) := read_sign s in
  if starts_with (list_ascii_of_string "Infinity") s0
  then (if sg then NegInf else PosInf)
  else
    let '(ip, n1, s1) := read_digits s0 0%Z 0 in
    let '(m, n2, s2) :=
      match s1 with
      | "."%char :: t => read_digits t ip 0
      | _ => (ip, 0%nat, s1)
      end in
    if (n1 + n2 =? 0)%nat then NaN
    else
      let e := (read_exponent s2 - Z.of_nat n2)%Z in
      let q := ((m # 1) * Qpower (10 # 1) e)%Q in
      Fin (Qred (if sg then - q else q)).

End JS.

Import JS.

Open Scope string_scope.
Open Scope list_scope.
Open Scope nat_scope.

(* ================================================================= *)
(** ** Data model ([types.ts]) *)

(** The fields of [XRPLTrustline] the scan reads. *)
Record XRPLTrustline : Type := mkLine {
  line_account : string;
  line_balance : string
}.

(** The element type of [allLines]: [{account: string, balance: number}]. *)
Record RawHolding : Type := mkRaw {
  raw_account : string;
  raw_balance : number
}.

Inductive WalletType : Type := cex | team.

(** The ladder of [processResults].  One constructor per branch of the
    threshold chain; a branch assigns [tier], [tierIcon] and [tierColor]
    together, so the constructor stands for the three of them
    ([tier_label] and [tier_color] give the strings; the icons are
    glyphs and are left out). *)
Inductive Tier : Type :=
  | Microbe | Plankton | Shrimp | Crab | Octopus | Turtle | Swordfish
  | Dolphin | Shark | Orca | Whale | SpermWhale | Megalodon | Kraken.

Definition tier_label (t : Tier) : string :=
  match t with
  | Microbe => "Microbe" | Plankton => "Plankton" | Shrimp => "Shrimp"
  | Crab => "Crab" | Octopus => "Octopus" | Turtle => "Turtle"
  | Swordfish => "Swordfish" | Dolphin => "Dolphin" | Shark => "Shark"
  | Orca => "Orca" | Whale => "Whale" | SpermWhale => "Sperm Whale"
  | Megalodon => "Megalodon" | Kraken => "Kraken"
  end.

Definition tier_color (t : Tier) : string :=
  match t with
  | Microbe => "text-slate-500 dark:text-slate-500"
  | Plankton => "text-lime-600 dark:text-lime-400"
  | Shrimp => "text-pink-500 dark:text-pink-400"
  | Crab => "text-rose-500 dark:text-rose-400"
  | Octopus => "text-orange-600 dark:text-orange-400"
  | Turtle => "text-emerald-600 dark:text-emerald-400"
  | Swordfish => "text-sky-600 dark:text-sky-400"
  | Dolphin => "text-cyan-600 dark:text-cyan-400"
  | Shark => "text-slate-600 dark:text-slate-400"
  | Orca =>
      "text-slate-900 dark:text-slate-100 drop-shadow-[0_0_5px_rgba(255,255,255,0.3)]"
  | Whale => "text-blue-600 dark:text-blue-400"
  | SpermWhale => "text-indigo-600 dark:text-indigo-400"
  | Megalodon =>
      "text-red-600 dark:text-red-500 drop-shadow-[0_0_8px_rgba(239,68,68,0.5)]"
  | Kraken =>
      "text-purple-600 dark:text-purple-400 drop-shadow-[0_0_8px_rgba(168,85,247,0.5)]"
  end.

(** Position of a tier on the ladder, [Microbe] lowest. *)
Definition tier_index (t : Tier) : nat :=
  match t with
  | Microbe => 0 | Plankton => 1 | Shrimp => 2 | Crab => 3 | Octopus => 4
  | Turtle => 5 | Swordfish => 6 | Dolphin => 7 | Shark => 8 | Orca => 9
  | Whale => 10 | SpermWhale => 11 | Megalodon => 12 | Kraken => 13
  end.

Record Holder : Type := mkHolder {
  rank : nat;
  account : string;
  balance : number;
  percentage : number;
  tier : Tier;
  walletLabel : option string;
  walletType : option WalletType
}.

Record FetchStatus : Type := mkFetchStatus {
  isFetching : bool;
  linesFetched : nat;
  statusMessage : string;
  error : option string;
  complete : bool
}.

(** Of [TokenMetrics] the scan engine reads [totalSupply] only. *)
Record TokenMetrics : Type := mkMetrics {
  totalSupply : number
}.

(* ================================================================= *)
(** ** Constants of [App.tsx] *)

Definition ISSUER : string := "rCSCManTZ8ME9EoLrSHHYKW8PPwWMgkwr".

Definition KNOWN_WALLETS : list (string * (string * WalletType)) :=
  [ ("rCSCManTZ8ME9EoLrSHHYKW8PPwWMgkwr", ("Issuer / Foundation", team));
    ("raLPjTYeGEzf4yt4lqZz5AmfTDMhfq6F7q", ("Bitrue", cex));
    ("rLNaPoKeeBJZe2nz6oXAG9Jy9it8r912Fk", ("Bitrue Hot", cex));
    ("rMdG3ju8pgyVh29ELPWaDuA74CpWW6Fxns", ("Uphold", cex));
    ("rhub8VRN55sF4G7xQ1G1dfyE863FdrVk93", ("GateHub", cex));
    ("rPVMhWBsfF9iMXYj3aAzJVkPDTFNSyWdKy", ("Bittrex", cex));
    ("rNfwFmsgM97YW43d7s1832J8f4i7eG8xG3", ("Xumm / XRPL Labs", cex)) ].

Fixpoint lookup_wallet (tbl : list (string * (string * WalletType)))
  (k : string) : option (string * WalletType) :=
  match tbl with
  | [] => None
  | (k', v) :: tbl' => if String.eqb k k' then Some v else lookup_wallet tbl' k
  end.

Definition FALLBACK_SUPPLY : number := of_Z 65000000000.

(* ================================================================= *)
(** ** Aggregation ([processResults]) *)

(** The branch chain of [processResults], highest threshold first. *)
Definition classify (b : number) : Tier :=
  if geb b (of_Z 1000000000) then Kraken
  else if geb b (of_Z 500000000) then Megalodon
  else if geb b (of_Z 250000000) then SpermWhale
  else if geb b (of_Z 100000000) then Whale
  else if geb b (of_Z 50000000) then Orca
  else if geb b (of_Z 25000000) then Shark
  else if geb b (of_Z 10000000) then Dolphin
  else if geb b (of_Z 5000000) then Swordfish
  else if geb b (of_Z 1000000) then Turtle
  else if geb b (of_Z 500000) then Octopus
  else if geb b (of_Z 100000) then Crab
  else if geb b (of_Z 50000) then Shrimp
  else if geb b (of_Z 10000) then Plankton
  else Microbe.

(** The comparator handed to [sort]: [(a, b) => b.balance - a.balance]. *)
Definition comparator (a b : RawHolding) : number :=
  sub (raw_balance b) (raw_balance a).

Section Sort.
Variable A : Type.
Variable cmp : A -> A -> number.

(** [Array.prototype.sort] with a comparator is stable: [x], which
    precedes the elements of [l] in the input, moves behind [y] only
    when [cmp x y > 0] (a NaN result counts as [0]).  For a consistent
    comparator every conforming sort returns this list; for others the
    order is left to the implementation, and this is one such order. *)
Fixpoint sort_insert (x : A) (l : list A) : list A :=
  match l with
  | [] => [x]
  | y :: l' =>
      if gtb (cmp x y) (of_Z 0) then y :: sort_insert x l' else x :: l
  end.

Fixpoint js_sort (l : list A) : list A :=
  match l with
  | [] => []
  | x :: l' => sort_insert x (js_sort l')
  end.
End Sort.

(** [Array.prototype.map] with the index argument, starting at [i]. *)
Fixpoint mapi_from {A B : Type} (f : A -> nat -> B) (i : nat) (l : list A)
  : list B :=
  match l with
  | [] => []
  | x :: l' => f x i :: mapi_from f (S i) l'
  end.

Definition mapi {A B : Type} (f : A -> nat -> B) (l : list A) : list B :=
  mapi_from f 0 l.

(** [metrics?.totalSupply || 65_000_000_000] *)
Definition supplyBasis (metrics : option TokenMetrics) : number :=
  match metrics with
  | Some m => if truthy (totalSupply m) then totalSupply m else FALLBACK_SUPPLY
  | None => FALLBACK_SUPPLY
  end.

(** The body of [sorted.map((h, index) => ...)]. *)
Definition toHolder (basis : number) (h : RawHolding) (index : nat) : Holder :=
  let known := lookup_wallet KNOWN_WALLETS (raw_account h) in
  {| rank := index + 1;
     account := raw_account h;
     balance := raw_balance h;
     percentage := mul (div (raw_balance h) basis) (of_Z 100);
     tier := classify (raw_balance h);
     walletLabel := option_map fst known;
     walletType := option_map snd known |}.

Definition notIssuer (h : RawHolding) : bool :=
  negb (String.eqb (raw_account h) ISSUER).

(** The pure part of [processResults]: sort, optional issuer filter,
    map to [Holder]. *)
Definition aggregate (rawHolders : list RawHolding) (excludeIssuer : bool)
  (metrics : option TokenMetrics) : list Holder :=
  let sorted := js_sort comparator rawHolders in
  let sorted := if excludeIssuer then filter notIssuer sorted else sorted in
  mapi (toHolder (supplyBasis metrics)) sorted.

(* ================================================================= *)
(** ** Component state *)

(** A continuation marker: [unknown] in the source, a string or an
    object depending on the node version. *)
Inductive Marker : Type :=
  | MarkerStr (s : string)
  | MarkerObj (id : nat).

(** What [fetchTrustlinesBatch] resolves to. *)
Record Batch : Type := mkBatch {
  lines : list XRPLTrustline;
  nextMarker : option Marker
}.

(** How the awaited page request settles.  The service itself is an
    external collaborator: its answers are inputs of the model. *)
Inductive Settled : Type :=
  | Fulfilled (batch : Batch)
  | Rejected (message : string).

(** [if (batch.nextMarker)]: [undefined] and the empty string are falsy. *)
Definition marker_truthy (m : option Marker) : bool :=
  match m with
  | None => false
  | Some (MarkerStr s) => negb (String.eqb s "")
  | Some (MarkerObj _) => true
  end.

(** The [useState] cells and the [useRef] cell of [App] that the scan
    engine touches.  [abortController] is [abortControllerRef.current]:
    [None] for [null], [Some b] for a controller whose
    [signal.aborted] is [b].  [statusLog] is a history variable, not
    program state: every value [setFetchStatus] has produced, newest
    first. *)
Record App : Type := mkApp {
  holders : list Holder;
  lastUpdated : option N;
  fetchStatus : FetchStatus;
  metrics : option TokenMetrics;
  excludeIssuer : bool;
  isLiveUpdate : bool;
  abortController : option bool;
  statusLog : list FetchStatus
}.

Definition initialStatus : FetchStatus :=
  {| isFetching := false; linesFetched := 0; statusMessage := "";
     error := None; complete := false |}.

Definition initialApp : App :=
  {| holders := []; lastUpdated := None; fetchStatus := initialStatus;
     metrics := None; excludeIssuer := true; isLiveUpdate := false;
     abortController := None; statusLog := [] |}.

Definition setHolders (v : list Holder) (st : App) : App :=
  mkApp v (lastUpdated st) (fetchStatus st) (metrics st) (excludeIssuer st)
        (isLiveUpdate st) (abortController st) (statusLog st).

Definition setLastUpdated (v : N) (st : App) : App :=
  mkApp (holders st) (Some v) (fetchStatus st) (metrics st) (excludeIssuer st)
        (isLiveUpdate st) (abortController st) (statusLog st).

(** [setFetchStatus(prev => f prev)]; a plain value is a constant [f]. *)
Definition setFetchStatus (f : FetchStatus -> FetchStatus) (st : App) : App :=
  let v := f (fetchStatus st) in
  mkApp (holders st) (lastUpdated st) v (metrics st) (excludeIssuer st)
        (isLiveUpdate st) (abortController st) (v :: statusLog st).

Definition setMetrics (v : option TokenMetrics) (st : App) : App :=
  mkApp (holders st) (lastUpdated st) (fetchStatus st) v (excludeIssuer st)
        (isLiveUpdate st) (abortController st) (statusLog st).

Definition setExcludeIssuer (v : bool) (st : App) : App :=
  mkApp (holders st) (lastUpdated st) (fetchStatus st) (metrics st) v
        (isLiveUpdate st) (abortController st) (statusLog st).

Definition setIsLiveUpdate (v : bool) (st : App) : App :=
  mkApp (holders st) (lastUpdated st) (fetchStatus st) (metrics st)
        (excludeIssuer st) v (abortController st) (statusLog st).

Definition setAbortController (v : option bool) (st : App) : App :=
  mkApp (holders st) (lastUpdated st) (fetchStatus st) (metrics st)
        (excludeIssuer st) (isLiveUpdate st) v (statusLog st).

(** The state values a function created by one render reads: they are
    those of that render, whatever the state has become since. *)
Record Closure : Type := mkClosure {
  cl_fetchStatus : FetchStatus;
  cl_holders : list Holder;
  cl_excludeIssuer : bool;
  cl_metrics : option TokenMetrics
}.

Definition render (st : App) : Closure :=
  {| cl_fetchStatus := fetchStatus st; cl_holders := holders st;
     cl_excludeIssuer := excludeIssuer st; cl_metrics := metrics st |}.

(** The memoised [trustlineSupply]:
    [holders.reduce((acc, h) => acc + h.balance, 0)]. *)
Definition trustlineSupply (hs : list Holder) : number :=
  fold_left (fun acc h => add acc (balance h)) hs (of_Z 0).

(* ================================================================= *)
(** ** The scan ([startScan], [stopScan], [processResults]) *)

(** The local variables of a [startScan] invocation suspended on
    [await fetchTrustlinesBatch(marker)]. *)
Record Scan : Type := mkScan {
  sc_closure : Closure;
  allLines : list RawHolding;
  marker : option Marker;
  isBackgroundUpdate : bool
}.

(** How a synchronous stretch of [startScan] ends. *)
Inductive Outcome : Type :=
  | NotStarted                  (* the guard on [isFetching] returned *)
  | Suspended (sc : Scan)       (* awaiting the page at [marker sc] *)
  | Completed                   (* [processResults] ran *)
  | Caught (message : string).  (* the [catch] block ran *)

Definition string_of_nat (n : nat) : string :=
  NilEmpty.string_of_uint (Nat.to_uint n).

(** [batch.lines.map(...).filter(h => h.balance > 0)] *)
Definition toRawHolding (line : XRPLTrustline) : RawHolding :=
  let rawBalance := parseFloat (line_balance line) in
  {| raw_account := line_account line;
     raw_balance := if ltb rawBalance (of_Z 0) then abs rawBalance else of_Z 0 |}.

Definition holdersBatch (ls : list XRPLTrustline) : list RawHolding :=
  filter (fun h => gtb (raw_balance h) (of_Z 0)) (map toRawHolding ls).

Definition processResults (rawHolders : list RawHolding)
  (isBackgroundUpdate : bool) (cl : Closure) (now : N) (st : App) : App :=
  let st :=
    if isBackgroundUpdate then st
    else setFetchStatus
           (fun prev => mkFetchStatus (isFetching prev) (linesFetched prev)
                          "Processing rich list data..." (error prev)
                          (complete prev)) st in
  let processed := aggregate rawHolders (cl_excludeIssuer cl) (cl_metrics cl) in
  let st := setHolders processed st in
  let st := setLastUpdated now st in
  setFetchStatus
    (fun _ => {| isFetching := false; linesFetched := List.length processed;
                 statusMessage := "Scan complete."; error := None;
                 complete := true |}) st.

(** The [catch] block of [startScan]. *)
Definition scan_catch (message : string) (st : App) : App :=
  let st :=
    setFetchStatus
      (fun prev => mkFetchStatus false (linesFetched prev)
                     "Error during scan." (Some message) (complete prev)) st in
  setIsLiveUpdate false st.

(** [abortControllerRef.current?.signal.aborted] *)
Definition aborted (st : App) : bool :=
  match abortController st with
  | Some b => b
  | None => false
  end.

(** The head of the [while] loop: the cancellation check, then the page
    request, on which the function suspends. *)
Definition loop_head (sc : Scan) (st : App) : App * Outcome :=
  if aborted st
  then (scan_catch "Scan aborted by user" st, Caught "Scan aborted by user")
  else (st, Suspended sc).

(** [startScan] up to its first suspension. *)
Definition startScan (cl : Closure) (st : App) : App * Outcome :=
  if isFetching (cl_fetchStatus cl) then (st, NotStarted)
  else
    let isBackgroundUpdate := 0 <? List.length (cl_holders cl) in
    let st :=
      setFetchStatus
        (fun _ => {| isFetching := true; linesFetched := 0;
                     statusMessage :=
                       if isBackgroundUpdate
                       then statusMessage (cl_fetchStatus cl)
                       else "Initializing connection to XRPL...";
                     error := None; complete := false |}) st in
    let st := setAbortController (Some false) st in
    loop_head {| sc_closure := cl; allLines := []; marker := None;
                 isBackgroundUpdate := isBackgroundUpdate |} st.

(** [startScan] from the settlement of the awaited page request to its
    next suspension or its end. *)
Definition resume (r : Settled) (sc : Scan) (now : N) (st : App)
  : App * Outcome :=
  match r with
  | Rejected message => (scan_catch message st, Caught message)
  | Fulfilled batch =>
      let allLines := allLines sc ++ holdersBatch (lines batch) in
      let st :=
        if isBackgroundUpdate sc then st
        else setFetchStatus
               (fun prev => mkFetchStatus (isFetching prev) (List.length allLines)
                  ("Scanning ledger... found " ++ string_of_nat (List.length allLines)
                     ++ " holders so far")
                  (error prev) (complete prev)) st in
      if marker_truthy (nextMarker batch)
      then loop_head (mkScan (sc_closure sc) allLines (nextMarker batch)
                        (isBackgroundUpdate sc)) st
      else (processResults allLines (isBackgroundUpdate sc) (sc_closure sc)
              now st, Completed)
  end.

Definition stopScan (st : App) : App :=
  match abortController st with
  | Some _ =>
      let st := setAbortController (Some true) st in
      let st :=
        setFetchStatus
          (fun prev => mkFetchStatus false (linesFetched prev)
                         "Scan stopped by user." (error prev) false) st in
      setIsLiveUpdate false st
  | None => st
  end.

Definition toggleExcludeIssuer (st : App) : App :=
  setExcludeIssuer (negb (excludeIssuer st)) st.

Definition toggleLiveUpdate (st : App) : App :=
  setIsLiveUpdate (negb (isLiveUpdate st)) st.

(* ================================================================= *)
(** ** Live update (the effect on
       [[isLiveUpdate, isFetching, complete, holders.length]])
       and the event loop *)

(** An entry of the host's timer table made by
    [setTimeout(() => { startScan(); }, 10000)]: its handle, the time it
    is due, and the render whose [startScan] the callback calls. *)
Record Timer : Type := mkTimer {
  tm_id : nat;
  tm_due : N;
  tm_closure : Closure
}.

(** The dependency array of the effect. *)
Record Deps : Type := mkDeps {
  d_isLiveUpdate : bool;
  d_isFetching : bool;
  d_complete : bool;
  d_length : nat
}.

Definition deps (st : App) : Deps :=
  {| d_isLiveUpdate := isLiveUpdate st;
     d_isFetching := isFetching (fetchStatus st);
     d_complete := complete (fetchStatus st);
     d_length := List.length (holders st) |}.

Definition deps_eqb (a b : Deps) : bool :=
  Bool.eqb (d_isLiveUpdate a) (d_isLiveUpdate b)
  && Bool.eqb (d_isFetching a) (d_isFetching b)
  && Bool.eqb (d_complete a) (d_complete b)
  && (d_length a =? d_length b).

(** The component together with its environment: the suspended
    [startScan] invocations, the timer table, the clock (milliseconds),
    and what the last run of the effect left behind: its [timeout]
    variable, which its cleanup will clear, and its dependency values
    ([None] before the first render). *)
Record World : Type := mkWorld {
  app : App;
  pending : list Scan;
  timers : list Timer;
  nextTimerId : nat;
  clock : N;
  effTimeout : option nat;
  effDeps : option Deps
}.

Definition COOLDOWN : N := 10000.

Definition with_app (st : App) (w : World) : World :=
  mkWorld st (pending w) (timers w) (nextTimerId w) (clock w)
          (effTimeout w) (effDeps w).

(** [clearTimeout(h)]; clearing [undefined] or a handle that has fired
    does nothing. *)
Definition clearTimeout (h : option nat) (w : World) : World :=
  match h with
  | None => w
  | Some id =>
      mkWorld (app w) (pending w)
              (filter (fun t => negb (tm_id t =? id)) (timers w))
              (nextTimerId w) (clock w) (effTimeout w) (effDeps w)
  end.

(** A call [startScan()] of the render [cl]; an invocation that
    suspends joins [pending]. *)
Definition call_startScan (cl : Closure) (w : World) : World :=
  let '(st, o) := startScan cl (app w) in
  let p := match o with
           | Suspended sc => pending w ++ [sc]
           | _ => pending w
           end in
  mkWorld st p (timers w) (nextTimerId w) (clock w) (effTimeout w) (effDeps w).

Definition set_effTimeout (h : option nat) (w : World) : World :=
  mkWorld (app w) (pending w) (timers w) (nextTimerId w) (clock w)
          h (effDeps w).

Definition set_effDeps (d : Deps) (w : World) : World :=
  mkWorld (app w) (pending w) (timers w) (nextTimerId w) (clock w)
          (effTimeout w) (Some d).

(** [setTimeout(() => { startScan(); }, 10000)] in the render of the
    current state; the handle is returned. *)
Definition setTimeout_startScan (w : World) : World * nat :=
  let id := nextTimerId w in
  (mkWorld (app w) (pending w)
           (timers w ++ [mkTimer id (clock w + COOLDOWN)%N (render (app w))])
           (S id) (clock w) (effTimeout w) (effDeps w),
   id).

(** The body of the effect; [effTimeout] receives its [timeout], which
    stays [undefined] unless a timer is set. *)
Definition liveUpdateEffect (w : World) : World :=
  let st := app w in
  if isLiveUpdate st && negb (isFetching (fetchStatus st)) then
    if complete (fetchStatus st) then
      let '(w, id) := setTimeout_startScan w in
      set_effTimeout (Some id) w
    else if List.length (holders st) =? 0 then
      set_effTimeout None (call_startScan (render st) w)
    else set_effTimeout None w
  else set_effTimeout None w.

(** The cleanup the effect returned: [() => clearTimeout(timeout)]. *)
Definition cleanup (w : World) : World := clearTimeout (effTimeout w) w.

Definition deps_changed (w : World) : bool :=
  match effDeps w with
  | Some d => negb (deps_eqb (deps (app w)) d)
  | None => true
  end.

(** After a render: when a dependency changed, the previous cleanup
    runs, then the effect. *)
Definition commit1 (w : World) : World :=
  if deps_changed w
  then liveUpdateEffect (set_effDeps (deps (app w)) (cleanup w))
  else w.

(** The effect may itself set state (it calls [startScan]), which
    renders again; the second round finds [isFetching] set and arms
    nothing, so two rounds reach a fixed point. *)
Definition commit (w : World) : World := commit1 (commit1 w).

Fixpoint remove_nth {A : Type} (i : nat) (l : list A) : list A :=
  match i, l with
  | _, [] => []
  | 0, _ :: l' => l'
  | S i', x :: l' => x :: remove_nth i' l'
  end.

Fixpoint replace_nth {A : Type} (i : nat) (v : A) (l : list A) : list A :=
  match i, l with
  | _, [] => []
  | 0, _ :: l' => v :: l'
  | S i', x :: l' => x :: replace_nth i' v l'
  end.

(** The page request of the [i]-th suspended invocation settles. *)
Definition settle (i : nat) (r : Settled) (w : World) : World :=
  match nth_error (pending w) i with
  | None => w
  | Some sc =>
      let '(st, o) := resume r sc (clock w) (app w) in
      let p := match o with
               | Suspended sc' => replace_nth i sc' (pending w)
               | _ => remove_nth i (pending w)
               end in
      mkWorld st p (timers w) (nextTimerId w) (clock w)
              (effTimeout w) (effDeps w)
  end.

(** A due timer fires: the host drops the entry and calls the callback. *)
Definition run_timer (t : Timer) (w : World) : World :=
  commit (call_startScan (tm_closure t) (clearTimeout (Some (tm_id t)) w)).

Fixpoint fire (fuel : nat) (w : World) : World :=
  match fuel with
  | 0 => w
  | S fuel' =>
      match find (fun t => (tm_due t <=? clock w)%N) (timers w) with
      | Some t => fire fuel' (run_timer t w)
      | None => w
      end
  end.

Definition advance (dt : N) (w : World) : World :=
  mkWorld (app w) (pending w) (timers w) (nextTimerId w)
          (clock w + dt)%N (effTimeout w) (effDeps w).

(** Time passes: the timers that have come due fire. *)
Definition elapse (dt : N) (w : World) : World :=
  let w := advance dt w in
  fire (List.length (timers w)) w.

Inductive Event : Type :=
  | ClickStart                              (* [onClick={() => startScan()}] *)
  | ClickStop                               (* [onClick={stopScan}] *)
  | ClickLiveUpdate                         (* [onClick={toggleLiveUpdate}] *)
  | ClickExcludeIssuer                      (* [onClick={toggleExcludeIssuer}] *)
  | MetricsLoaded (m : option TokenMetrics) (* [setMetrics(data)] *)
  | Settle (i : nat) (r : Settled)
  | Elapse (dt : N).

Definition step (e : Event) (w : World) : World :=
  match e with
  | ClickStart => commit (call_startScan (render (app w)) w)
  | ClickStop => commit (with_app (stopScan (app w)) w)
  | ClickLiveUpdate => commit (with_app (toggleLiveUpdate (app w)) w)
  | ClickExcludeIssuer => commit (with_app (toggleExcludeIssuer (app w)) w)
  | MetricsLoaded m => commit (with_app (setMetrics m (app w)) w)
  | Settle i r => commit (settle i r w)
  | Elapse dt => elapse dt w
  end.

Definition run (es : list Event) (w : World) : World :=
  fold_left (fun w e => step e w) es w.

(** The component once mounted: the effects have run on the first render. *)
Definition initialWorld : World :=
  commit (mkWorld initialApp [] [] 0 0%N None None).

Inductive reachable : World -> Prop :=
  | reach_init : reachable initialWorld
  | reach_step : forall e w, reachable w -> reachable (step e w).

(* ================================================================= *)
(** * Vocabulary of the statements *)

(** ** Aggregation *)

(** The account and balance of a published holder. *)
Definition raw_of (h : Holder) : RawHolding :=
  {| raw_account := account h; raw_balance := balance h |}.

(** [x] may stand before [y] in a list sorted by descending balance. *)
Definition desc (x y : RawHolding) : Prop :=
  geb (raw_balance x) (raw_balance y) = true.

(** The holdings whose balance is [k]. *)
Definition has_balance (k : number) (h : RawHolding) : bool :=
  eqb (raw_balance h) k.

(** The entries the issuer switch keeps. *)
Definition kept (excl : bool) (l : list RawHolding) : list RawHolding :=
  if excl then filter notIssuer l else l.

(** A sample with a tie, a fractional balance and the issuer. *)
Definition sample_raw : list RawHolding :=
  [ mkRaw "rA" (of_Z 100); mkRaw ISSUER (of_Z 7000); mkRaw "rB" (of_Z 500);
    mkRaw "rC" (of_Z 100); mkRaw "rD" (Fin (1 # 2)) ].

(** ** The two-page fixture of the specification *)

Module Fixture.

Definition cursor : option Marker := Some (MarkerStr "page-2").

Definition page1 : Batch :=
  {| lines := [mkLine "A" "-500"; mkLine "B" "300"]; nextMarker := cursor |}.

Definition page2 : Batch :=
  {| lines := [mkLine "C" "-100"]; nextMarker := None |}.

(** [excludeIssuer] switched off, a metrics snapshot with a total supply
    of 1000, then a scan whose two page requests are answered by
    [page1] and [page2]. *)
Definition before_scan : list Event :=
  [ ClickExcludeIssuer; MetricsLoaded (Some (mkMetrics (of_Z 1000))) ].

Definition first_page : list Event :=
  before_scan ++ [ ClickStart; Settle 0 (Fulfilled page1) ].

Definition whole_scan : list Event :=
  first_page ++ [ Settle 0 (Fulfilled page2) ].

Definition expected : list Holder :=
  [ {| rank := 1; account := "A"; balance := of_Z 500;
       percentage := of_Z 50; tier := Microbe;
       walletLabel := None; walletType := None |};
    {| rank := 2; account := "C"; balance := of_Z 100;
       percentage := of_Z 10; tier := Microbe;
       walletLabel := None; walletType := None |} ].

End Fixture.

(** ** Tiers and the issuer switch *)

(** The specification's reading of the ladder: a table of (minimum
    balance, tier) pairs, highest threshold first, scanned for the
    first threshold the balance meets; the default is the lowest tier. *)
Definition THRESHOLDS : list (number * Tier) :=
  [ (of_Z 1000000000, Kraken); (of_Z 500000000, Megalodon);
    (of_Z 250000000, SpermWhale); (of_Z 100000000, Whale);
    (of_Z 50000000, Orca); (of_Z 25000000, Shark);
    (of_Z 10000000, Dolphin); (of_Z 5000000, Swordfish);
    (of_Z 1000000, Turtle); (of_Z 500000, Octopus);
    (of_Z 100000, Crab); (of_Z 50000, Shrimp); (of_Z 10000, Plankton) ].

Fixpoint scan_table (tbl : list (number * Tier)) (b : number) : Tier :=
  match tbl with
  | [] => Microbe
  | (m, t) :: tbl' => if geb b m then t else scan_table tbl' b
  end.

Definition isIssuer (h : Holder) : bool := String.eqb (account h) ISSUER.

(** The holder [h] moved to rank [r]. *)
Definition with_rank (r : nat) (h : Holder) : Holder :=
  mkHolder r (account h) (balance h) (percentage h) (tier h)
           (walletLabel h) (walletType h).

(** Raw holdings in which two records carry the issuer account. *)
Definition two_issuer_lines : list RawHolding :=
  [ mkRaw ISSUER (of_Z 5); mkRaw "rX" (of_Z 9); mkRaw ISSUER (of_Z 7);
    mkRaw "rY" (of_Z 1) ].

(** ** Runs of one scan *)

(** Successive settlements handed to one invocation of [startScan], for
    as long as it stays suspended. *)
Fixpoint feed (rs : list Settled) (sc : Scan) (now : N) (st : App)
  : App * Outcome :=
  match rs with
  | [] => (st, Suspended sc)
  | r :: rs' =>
      match resume r sc now st with
      | (st', Suspended sc') => feed rs' sc' now st'
      | res => res
      end
  end.

(** A page that announces a further page. *)
Definition continuing (b : Batch) : Prop :=
  marker_truthy (nextMarker b) = true.

(** The progress update of an initial scan. *)
Definition progress (n : nat) (prev : FetchStatus) : FetchStatus :=
  mkFetchStatus (isFetching prev) n
    ("Scanning ledger... found " ++ string_of_nat n ++ " holders so far")
    (error prev) (complete prev).

(** The holdings accumulated from a list of pages. *)
Definition gathered (pages : list Batch) : list RawHolding :=
  List.concat (map (fun b => holdersBatch (lines b)) pages).

(** The value of [allLines.length] after each page of a list. *)
Fixpoint running_counts (n : nat) (pages : list Batch) : list nat :=
  match pages with
  | [] => []
  | b :: pages' =>
      let n' := n + List.length (holdersBatch (lines b)) in
      n' :: running_counts n' pages'
  end.

(** The marker the next request carries after a list of pages. *)
Definition last_marker (m : option Marker) (pages : list Batch)
  : option Marker :=
  fold_left (fun _ b => nextMarker b) pages m.

(** What an event leaves alone: the published list and its time stamp. *)
Definition same_result (w w' : World) : Prop :=
  holders (app w') = holders (app w)
  /\ lastUpdated (app w') = lastUpdated (app w).

(** The last page of a scan: a fulfilled request without a further
    marker, for the [i]-th suspended invocation. *)
Definition last_page_of (w : World) (e : Event) (sc : Scan) (b : Batch)
  : Prop :=
  exists i, e = Settle i (Fulfilled b)
            /\ nth_error (pending w) i = Some sc
            /\ marker_truthy (nextMarker b) = false.

Module Cancel.

(** An initial scan, stopped by the user while its first page is on its
    way; the page then arrives and announces a further page. *)
Definition stopped_mid_scan : list Event :=
  [ ClickStart; ClickStop; Settle 0 (Fulfilled Fixture.page1) ].

(** An initial scan whose first page request fails. *)
Definition failed_mid_scan : list Event :=
  [ ClickStart; Settle 0 (Rejected "Network error") ].

End Cancel.

(** The status [processResults] ends with, for [n] published holders. *)
Definition completeStatus (n : nat) : FetchStatus :=
  {| isFetching := false; linesFetched := n; statusMessage := "Scan complete.";
     error := None; complete := true |}.

(** ** The scheduler *)

(** The timer table holds nothing, or the one timer that the cleanup of
    the last run of the effect will clear. *)
Definition slot (w : World) : Prop :=
  timers w = []
  \/ exists t, timers w = [t] /\ effTimeout w = Some (tm_id t).

(** The effect has run on the dependency values of the current state. *)
Definition settled (w : World) : Prop := effDeps w = Some (deps (app w)).

(** The cooldown is running: live update is on, the last scan is
    complete, no scan is running, and the effect's timer [t] is the one
    pending timer. *)
Definition cooling (w : World) (t : Timer) : Prop :=
  timers w = [t]
  /\ effTimeout w = Some (tm_id t)
  /\ settled w
  /\ isLiveUpdate (app w) = true
  /\ isFetching (fetchStatus (app w)) = false
  /\ complete (fetchStatus (app w)) = true
  /\ isFetching (cl_fetchStatus (tm_closure t)) = false.

(** The effect of the current state neither arms nor starts anything. *)
Definition idle (st : App) : Prop :=
  isLiveUpdate st && negb (isFetching (fetchStatus st)) = false
  \/ (complete (fetchStatus st) = false /\ holders st <> []).

Module LiveFixture.

(** Live update switched on before any scan: the scan starts at once;
    its two pages arrive. *)
Definition first_cycle : list Event :=
  [ ClickLiveUpdate; Settle 0 (Fulfilled Fixture.page1);
    Settle 0 (Fulfilled Fixture.page2) ].

End LiveFixture.

(** ** A scan against a server *)

(** The page requests of one invocation answered by a server, a
    function from the marker sent to the settlement, for at most [fuel]
    requests. *)
Fixpoint drive (server : option Marker -> Settled) (fuel : nat) (sc : Scan)
  (now : N) (st : App) : App * Outcome :=
  match fuel with
  | 0 => (st, Suspended sc)
  | S fuel' =>
      match resume (server (marker sc)) sc now st with
      | (st', Suspended sc') => drive server fuel' sc' now st'
      | res => res
      end
  end.

(** The server answers the request for marker [m] with the first page
    of the list, and the marker of each page with the next page; the
    last page has no marker, the others have one. *)
Fixpoint serves (server : option Marker -> Settled) (m : option Marker)
  (pages : list Batch) : Prop :=
  match pages with
  | [] => False
  | [b] => server m = Fulfilled b /\ marker_truthy (nextMarker b) = false
  | b :: rest =>
      server m = Fulfilled b /\ continuing b
      /\ serves server (nextMarker b) rest
  end.

(** ** Invariants of the component *)

(** The flag [isFetching] tells whether an invocation of [startScan]
    is in flight, and there is at most one. *)
Definition flight (w : World) : Prop :=
  (isFetching (fetchStatus (app w)) = true /\ exists sc, pending w = [sc])
  \/ (isFetching (fetchStatus (app w)) = false /\ pending w = []).

(** The flag and the suspended invocations agree, and the cancellation
    signal is not raised. *)
Definition in_step (w : World) : Prop :=
  flight w /\ aborted (app w) = false.

(** A raw holding of positive balance. *)
Definition positive (h : RawHolding) : Prop :=
  gtb (raw_balance h) (of_Z 0) = true.

(** Every invocation in flight has gathered positive holdings only. *)
Definition gathering_positive (w : World) : Prop :=
  Forall (fun sc => Forall positive (allLines sc)) (pending w).

(** The invocations of [w'] are those of [w] and fresh ones, which have
    gathered nothing yet. *)
Definition grown (w w' : World) : Prop :=
  forall sc, In sc (pending w') -> In sc (pending w) \/ allLines sc = [].

(** A pending timer belongs to a running cooldown. *)
Definition timers_cooling (w : World) : Prop :=
  timers w = [] \/ exists t, cooling w t.

(** A holder list as aggregation leaves it: sorted by descending
    balance, ranked from 1, positive balances only. *)
Definition well_ranked (hs : list Holder) : Prop :=
  StronglySorted (fun x y => geb (balance x) (balance y) = true) hs
  /\ map rank hs = seq 1 (List.length hs)
  /\ Forall (fun h => gtb (balance h) (of_Z 0) = true) hs.

(** The state of a failed scan. *)
Definition erroredStatus (message : string) (prev : FetchStatus)
  : FetchStatus :=
  mkFetchStatus false (linesFetched prev) "Error during scan."
                (Some message) (complete prev).

(** The state [stopScan] leaves. *)
Definition stoppedStatus (prev : FetchStatus) : FetchStatus :=
  mkFetchStatus false (linesFetched prev) "Scan stopped by user."
                (error prev) false.

(* ================================================================= *)
(** * Properties *)

(** ** [parseFloat] on examples *)

Example parseFloat_ex1 : JS.parseFloat "-500" = JS.of_Z (-500).
Proof. reflexivity. Qed.
Example parseFloat_ex2 : JS.parseFloat "  12.50e1xyz" = JS.of_Z 125.
Proof. reflexivity. Qed.
Example parseFloat_ex3 : JS.parseFloat "abc" = JS.NaN.
Proof. reflexivity. Qed.
Example parseFloat_ex4 : JS.parseFloat "" = JS.NaN.
Proof. reflexivity. Qed.
Example parseFloat_ex5 : JS.parseFloat "-.25" = JS.Fin (-1 # 4).
Proof. reflexivity. Qed.
Example parseFloat_ex6 : JS.parseFloat "-Infinity" = JS.NegInf.
Proof. reflexivity. Qed.
Example parseFloat_ex7 : JS.parseFloat "1e" = JS.of_Z 1.
Proof. reflexivity. Qed.
Example parseFloat_ex8 : JS.parseFloat "." = JS.NaN.
Proof. reflexivity. Qed.

(** ** Order facts on [number] *)

Section NumberOrder.

Lemma Qltb_lt (p q : Q) : Qltb p q = true <-> (p < q)%Q.
Proof.
  unfold Qltb. rewrite negb_true_iff. split; intro H.
  - apply Qnot_le_lt. intro L. apply Qle_bool_iff in L. congruence.
  - destruct (Qle_bool q p) eqn:E; [|reflexivity].
    apply Qle_bool_iff in E. exfalso. exact (Qlt_not_le _ _ H E).
Qed.

Lemma Qltb_false (p q : Q) : Qltb p q = false <-> (q <= p)%Q.
Proof.
  unfold Qltb. rewrite negb_false_iff. apply Qle_bool_iff.
Qed.

Lemma Qeqb_eq (p q : Q) : Qeq_bool p q = true <-> (p == q)%Q.
Proof. apply Qeq_bool_iff. Qed.

(** The comparator is positive exactly when its second argument is the
    larger: no rounding can hide a difference. *)
Lemma sub_positive (a b : number) : gtb (sub b a) (of_Z 0) = gtb b a.
Proof.
  destruct a as [| | |p], b as [| | |q]; try reflexivity.
  unfold gtb, sub, of_Z, ltb.
  destruct (Qltb p q) eqn:E.
  - apply Qltb_lt. rewrite Qred_correct. apply Qltb_lt in E.
    unfold Qminus. apply (Qplus_lt_l _ _ p). ring_simplify. exact E.
  - apply Qltb_false. rewrite Qred_correct. apply Qltb_false in E.
    unfold Qminus. apply (Qplus_le_l _ _ p). ring_simplify. exact E.
Qed.

Lemma geb_total (a b : number) :
  a <> NaN -> b <> NaN -> gtb b a = false -> geb a b = true.
Proof.
  intros Ha Hb. unfold geb, gtb.
  destruct a as [| | |p], b as [| | |q]; simpl; try congruence; try reflexivity.
  intro H. apply Qltb_false in H. apply orb_true_iff.
  destruct (Qltb q p) eqn:E; [now left|right].
  apply Qltb_false in E. apply Qeqb_eq. now apply Qle_antisym.
Qed.

Lemma geb_le (p q : Q) : geb (Fin p) (Fin q) = true <-> (q <= p)%Q.
Proof.
  unfold geb, gtb. simpl. rewrite orb_true_iff, Qltb_lt, Qeqb_eq. split.
  - intros [H|H]; [now apply Qlt_le_weak | rewrite H; apply Qle_refl].
  - intro H. apply Qle_lt_or_eq in H. destruct H as [H|H]; [now left|right].
    now symmetry.
Qed.

Lemma geb_trans (a b c : number) :
  geb a b = true -> geb b c = true -> geb a c = true.
Proof.
  destruct a as [| | |p], b as [| | |q], c as [| | |r];
    try (intros; reflexivity); try discriminate.
  rewrite !geb_le. intros H1 H2. eapply Qle_trans; eassumption.
Qed.

Lemma geb_not_nan_l (a b : number) : geb a b = true -> a <> NaN.
Proof. destruct a, b; try discriminate; congruence. Qed.

Lemma geb_not_nan_r (a b : number) : geb a b = true -> b <> NaN.
Proof. destruct a, b; try discriminate; congruence. Qed.

(** Two values equal to a third are not strictly ordered. *)
Lemma eqb_not_gtb (a b k : number) :
  eqb a k = true -> eqb b k = true -> gtb b a = false.
Proof.
  destruct a as [| | |p], b as [| | |q], k as [| | |r];
    try discriminate; try reflexivity.
  simpl. rewrite !Qeqb_eq. intros H1 H2. unfold gtb. simpl.
  apply Qltb_false. rewrite H1, H2. apply Qle_refl.
Qed.

End NumberOrder.

(** ** The sort is a stable sort by descending balance *)

Section SortFacts.

Variable A : Type.
Variable cmp : A -> A -> number.

Lemma sort_insert_perm (x : A) (l : list A) :
  Permutation (sort_insert cmp x l) (x :: l).
Proof.
  induction l as [|y l IH]; cbn [sort_insert]; [reflexivity|].
  destruct (gtb (cmp x y) (of_Z 0)); [|reflexivity].
  rewrite IH. apply perm_swap.
Qed.

Lemma js_sort_perm (l : list A) : Permutation (js_sort cmp l) l.
Proof.
  induction l as [|x l IH]; cbn [js_sort]; [reflexivity|].
  rewrite sort_insert_perm. now constructor.
Qed.

Lemma filter_comm (p q : A -> bool) (l : list A) :
  filter p (filter q l) = filter q (filter p l).
Proof.
  induction l as [|x l IH]; simpl; [reflexivity|].
  destruct (p x) eqn:Ep, (q x) eqn:Eq; simpl; rewrite ?Ep, ?Eq, IH; reflexivity.
Qed.

Lemma StronglySorted_filter (R : A -> A -> Prop) (p : A -> bool) (l : list A) :
  StronglySorted R l -> StronglySorted R (filter p l).
Proof.
  induction 1 as [|x l Hs IH Hx]; simpl; [constructor|].
  destruct (p x); [|exact IH]. constructor; [exact IH|].
  apply Forall_forall. intros y Hy. apply filter_In in Hy.
  rewrite Forall_forall in Hx. now apply Hx.
Qed.

End SortFacts.

Lemma sort_insert_sorted (x : RawHolding) (l : list RawHolding) :
  raw_balance x <> NaN ->
  Forall (fun h => raw_balance h <> NaN) l ->
  StronglySorted desc l ->
  StronglySorted desc (sort_insert comparator x l).
Proof.
  intros Hx Hl Hs. induction Hs as [|y l Hs IH Hy]; cbn [sort_insert].
  - repeat constructor.
  - unfold comparator at 1. rewrite sub_positive.
    inversion Hl as [|? ? Hyn Hln]; subst.
    destruct (gtb (raw_balance y) (raw_balance x)) eqn:E.
    + constructor; [now apply IH|].
      eapply Permutation_Forall;
        [symmetry; apply sort_insert_perm|].
      constructor; [|exact Hy].
      unfold desc, geb. now rewrite E.
    + assert (Hxy : desc x y) by now apply geb_total.
      constructor; [now constructor|].
      constructor; [exact Hxy|].
      rewrite Forall_forall in Hy |- *. intros z Hz.
      unfold desc in *. eapply geb_trans; [exact Hxy | now apply Hy].
Qed.

Lemma js_sort_sorted (l : list RawHolding) :
  Forall (fun h => raw_balance h <> NaN) l ->
  StronglySorted desc (js_sort comparator l).
Proof.
  induction 1 as [|x l Hx Hl IH]; cbn [js_sort]; [constructor|].
  apply sort_insert_sorted; [exact Hx| |exact IH].
  eapply Permutation_Forall; [symmetry; apply js_sort_perm | exact Hl].
Qed.

(** Among the entries of one balance, the sort moves nothing. *)
Lemma sort_insert_stable (k : number) (x : RawHolding) (l : list RawHolding) :
  filter (has_balance k) (sort_insert comparator x l)
  = filter (has_balance k) (x :: l).
Proof.
  induction l as [|y l IH]; [reflexivity|].
  cbn [sort_insert]. unfold comparator at 1. rewrite sub_positive.
  destruct (gtb (raw_balance y) (raw_balance x)) eqn:E; [|reflexivity].
  cbn [filter] in *. rewrite IH.
  destruct (has_balance k x) eqn:Ex, (has_balance k y) eqn:Ey; try reflexivity.
  unfold has_balance in *.
  rewrite (eqb_not_gtb _ _ _ Ex Ey) in E. discriminate.
Qed.

Lemma js_sort_stable (k : number) (l : list RawHolding) :
  filter (has_balance k) (js_sort comparator l) = filter (has_balance k) l.
Proof.
  induction l as [|x l IH]; [reflexivity|].
  cbn [js_sort]. rewrite sort_insert_stable. cbn [filter]. now rewrite IH.
Qed.

(** ** Ranks and fields of the mapped list *)

Lemma mapi_from_raw (b : number) (i : nat) (l : list RawHolding) :
  map raw_of (mapi_from (toHolder b) i l) = l.
Proof.
  revert i. induction l as [|[a v] l IH]; intro i; simpl; [reflexivity|].
  now rewrite IH.
Qed.

Lemma mapi_from_rank (b : number) (i : nat) (l : list RawHolding) :
  map rank (mapi_from (toHolder b) i l) = seq (i + 1) (List.length l).
Proof.
  revert i. induction l as [|x l IH]; intro i; simpl; [reflexivity|].
  rewrite IH. simpl. reflexivity.
Qed.

Lemma mapi_from_length {A B : Type} (f : A -> nat -> B) (i : nat) (l : list A) :
  List.length (mapi_from f i l) = List.length l.
Proof.
  revert i. induction l as [|x l IH]; intro i; simpl; [reflexivity|].
  now rewrite IH.
Qed.

Lemma aggregate_raw (raw : list RawHolding) (excl : bool)
  (m : option TokenMetrics) :
  map raw_of (aggregate raw excl m) = kept excl (js_sort comparator raw).
Proof. unfold aggregate, mapi, kept. now rewrite mapi_from_raw. Qed.

Lemma aggregate_rank (raw : list RawHolding) (excl : bool)
  (m : option TokenMetrics) :
  map rank (aggregate raw excl m)
  = seq 1 (List.length (aggregate raw excl m)).
Proof.
  unfold aggregate, mapi. now rewrite mapi_from_rank, mapi_from_length.
Qed.

Lemma processResults_holders (raw : list RawHolding) (bg : bool)
  (cl : Closure) (now : N) (st : App) :
  holders (processResults raw bg cl now st)
  = aggregate raw (cl_excludeIssuer cl) (cl_metrics cl).
Proof. unfold processResults. destruct bg; reflexivity. Qed.

Lemma kept_sorted (excl : bool) (l : list RawHolding) :
  StronglySorted desc l -> StronglySorted desc (kept excl l).
Proof.
  destruct excl; simpl; [apply StronglySorted_filter | trivial].
Qed.

Lemma kept_stable (excl : bool) (k : number) (l : list RawHolding) :
  filter (has_balance k) (kept excl (js_sort comparator l))
  = filter (has_balance k) (kept excl l).
Proof.
  destruct excl; simpl; [|apply js_sort_stable].
  now rewrite filter_comm, js_sort_stable, filter_comm.
Qed.

Lemma sorted_map_raw (l : list Holder) :
  StronglySorted desc (map raw_of l) ->
  StronglySorted (fun x y => geb (balance x) (balance y) = true) l.
Proof.
  induction l as [|x l IH]; simpl; intro H; [constructor|].
  inversion H as [|? ? Hs Hx]; subst. constructor; [now apply IH|].
  rewrite Forall_map in Hx. exact Hx.
Qed.

Lemma Permutation_filter {A : Type} (p : A -> bool) (l l' : list A) :
  Permutation l l' -> Permutation (filter p l) (filter p l').
Proof.
  induction 1 as [|x l l' H IH|x y l|l l' l'' H1 IH1 H2 IH2]; simpl.
  - constructor.
  - destruct (p x); [now constructor | exact IH].
  - destruct (p x), (p y); try reflexivity. apply perm_swap.
  - now transitivity (filter p l').
Qed.

Lemma kept_perm (excl : bool) (l l' : list RawHolding) :
  Permutation l l' -> Permutation (kept excl l) (kept excl l').
Proof. destruct excl; simpl; [apply Permutation_filter | trivial]. Qed.

Example aggregate_sample_accounts :
  map (fun h => (rank h, account h)) (aggregate sample_raw false None)
  = [(1, ISSUER); (2, "rB"); (3, "rA"); (4, "rC"); (5, "rD")].
Proof. reflexivity. Qed.

Example aggregate_sample_excluded :
  map (fun h => (rank h, account h)) (aggregate sample_raw true None)
  = [(1, "rB"); (2, "rA"); (3, "rC"); (4, "rD")].
Proof. reflexivity. Qed.

(** C1: for every list of raw holdings (balances are numbers, not NaN),
    the holder list that [processResults] publishes is sorted by
    descending balance; entries of equal balance keep their input order
    and nothing but what the issuer switch removes is lost; the ranks
    are exactly 1..N in list order; and the list is computed from the
    raw holdings alone, whatever list was published before. *)
Theorem C1_holders_sorted_ranked :
  forall (raw : list RawHolding) (bg : bool) (cl : Closure) (now : N)
         (st : App),
    Forall (fun h => raw_balance h <> NaN) raw ->
    let out := holders (processResults raw bg cl now st) in
    StronglySorted (fun x y => geb (balance x) (balance y) = true) out
    /\ (forall k : number,
          filter (has_balance k) (map raw_of out)
          = filter (has_balance k) (kept (cl_excludeIssuer cl) raw))
    /\ Permutation (map raw_of out) (kept (cl_excludeIssuer cl) raw)
    /\ map rank out = seq 1 (List.length out)
    /\ (forall (bg' : bool) (now' : N) (st' : App),
          holders (processResults raw bg' cl now' st') = out).
Proof.
  intros raw bg cl now st Hraw out. subst out.
  rewrite processResults_holders.
  split; [|split; [|split; [|split]]].
  - apply sorted_map_raw. rewrite aggregate_raw.
    apply kept_sorted, js_sort_sorted, Hraw.
  - intro k. rewrite aggregate_raw. apply kept_stable.
  - rewrite aggregate_raw. apply kept_perm, js_sort_perm.
  - apply aggregate_rank.
  - intros. apply processResults_holders.
Qed.

Lemma C1_holders_sorted_ranked_witness :
  Forall (fun h => raw_balance h <> NaN) sample_raw
  /\ let out :=
       holders (processResults sample_raw false (render initialApp) 0%N
                  initialApp) in
     StronglySorted (fun x y => geb (balance x) (balance y) = true) out
     /\ (forall k : number,
           filter (has_balance k) (map raw_of out)
           = filter (has_balance k)
               (kept (cl_excludeIssuer (render initialApp)) sample_raw))
     /\ Permutation (map raw_of out)
          (kept (cl_excludeIssuer (render initialApp)) sample_raw)
     /\ map rank out = seq 1 (List.length out)
     /\ (forall (bg' : bool) (now' : N) (st' : App),
           holders (processResults sample_raw bg' (render initialApp) now' st')
           = out).
Proof.
  assert (H : Forall (fun h => raw_balance h <> NaN) sample_raw)
    by (repeat constructor; discriminate).
  split; [exact H|].
  exact (@C1_holders_sorted_ranked sample_raw false (render initialApp) 0%N
           initialApp H).
Defined.

(* ================================================================= *)
(** ** The two-page fixture *)

(** The percentages of the fixture in binary64 arithmetic, as the
    engine computes them: the quotient 100/1000 is rounded, and the
    product is 10 all the same. *)
Module Binary64.
Import PrimFloat.

Example fixture_percentages_binary64 :
  (PrimFloat.eqb (500 / 1000 * 100) 50 = true
   /\ PrimFloat.eqb (100 / 1000 * 100) 10 = true)%float.
Proof. split; vm_compute; reflexivity. Qed.

End Binary64.

(** C4: on the two-page fixture (supply basis 1000, issuer not
    excluded) the scan asks for the second page with the cursor of the
    first, publishes nothing before the second page has arrived, and
    then publishes exactly A (balance 500, rank 1, 50 percent) and C
    (balance 100, rank 2, 10 percent); B, whose signed balance is not
    negative, is dropped. *)
Theorem C4_two_page_fixture :
  let w0 := run Fixture.before_scan initialWorld in
  let w1 := run Fixture.first_page initialWorld in
  let w2 := run Fixture.whole_scan initialWorld in
  excludeIssuer (app w0) = false
  /\ supplyBasis (metrics (app w0)) = of_Z 1000
  /\ map marker (pending w1) = [Fixture.cursor]
  /\ map allLines (pending w1) = [[mkRaw "A" (of_Z 500)]]
  /\ holders (app w1) = []
  /\ holders (app w2) = Fixture.expected
  /\ pending w2 = []
  /\ fetchStatus (app w2)
     = {| isFetching := false; linesFetched := 2;
          statusMessage := "Scan complete."; error := None;
          complete := true |}.
Proof. vm_compute. repeat split. Qed.

(* ================================================================= *)
(** ** Tier classification *)

Lemma classify_scan_table (b : number) : classify b = scan_table THRESHOLDS b.
Proof. reflexivity. Qed.

Lemma ltb_geb_false (b c m : number) :
  ltb b c = true -> geb m c = true -> geb b m = false.
Proof.
  destruct b as [| | |p], c as [| | |q], m as [| | |r];
    try discriminate; try reflexivity.
  intros H1 H2. apply Qltb_lt in H1. apply geb_le in H2.
  destruct (geb (Fin p) (Fin r)) eqn:E; [|reflexivity].
  apply geb_le in E. exfalso.
  apply (Qlt_not_le _ _ H1). eapply Qle_trans; eassumption.
Qed.

Section Ladder.

Variable tbl : list (number * Tier).

(** Whatever the scan selects is the default or a tier of the table. *)
Lemma scan_table_cases (b : number) :
  scan_table tbl b = Microbe \/ In (scan_table tbl b) (map snd tbl).
Proof.
  induction tbl as [|[m t] l IH]; simpl; [now left|].
  destruct (geb b m); [right; now left|].
  destruct IH as [IH|IH]; [now left | right; now right].
Qed.

Lemma scan_table_below (b c : number) :
  Forall (fun e => geb (fst e) c = true) tbl ->
  ltb b c = true -> scan_table tbl b = Microbe.
Proof.
  intros Htbl Hb. induction Htbl as [|[m t] l Hm Hl IH]; simpl; [reflexivity|].
  simpl in Hm. now rewrite (ltb_geb_false _ _ _ Hb Hm).
Qed.

End Ladder.

(** A table whose tiers descend with its thresholds classifies
    monotonically. *)
Lemma scan_table_mono (tbl : list (number * Tier)) :
  StronglySorted (fun x y => tier_index (snd y) <= tier_index (snd x)) tbl ->
  forall a b : number,
    geb a b = true ->
    tier_index (scan_table tbl b) <= tier_index (scan_table tbl a).
Proof.
  induction 1 as [|[m t] l Hs IH Hm]; intros a b Hab; simpl; [apply Nat.le_refl|].
  destruct (geb b m) eqn:Eb.
  - now rewrite (geb_trans _ _ _ Hab Eb).
  - destruct (geb a m) eqn:Ea; [|now apply IH].
    destruct (scan_table_cases l b) as [H|H].
    + rewrite H. apply Nat.le_0_l.
    + apply in_map_iff in H. destruct H as [[m' t'] [Ht Hin]].
      rewrite Forall_forall in Hm. apply Hm in Hin. simpl in *. now subst.
Qed.

Lemma THRESHOLDS_descending :
  StronglySorted (fun x y => tier_index (snd y) <= tier_index (snd x))
    THRESHOLDS.
Proof.
  unfold THRESHOLDS.
  repeat (constructor; [|repeat (constructor; [simpl; lia|]); constructor]).
  constructor.
Qed.

Lemma THRESHOLDS_lowest :
  Forall (fun e => geb (fst e) (of_Z 10000) = true) THRESHOLDS.
Proof. repeat constructor. Qed.

(** C5: the tier is a function of the balance alone, namely the scan of
    the 13-row threshold table from its highest row down; it is
    monotonic (for balances [a >= b] the tier of [a] is not below the
    tier of [b]), and a balance under the lowest threshold, 10000, gets
    the default lowest tier. *)
Theorem C5_tier_monotonic :
  (forall (basis : number) (h : RawHolding) (i : nat),
      tier (toHolder basis h i) = scan_table THRESHOLDS (raw_balance h))
  /\ List.length THRESHOLDS = 13
  /\ (forall a b : number,
        geb a b = true ->
        tier_index (classify b) <= tier_index (classify a))
  /\ (forall b : number, ltb b (of_Z 10000) = true -> classify b = Microbe).
Proof.
  split; [reflexivity|]. split; [reflexivity|]. split.
  - intros a b Hab. rewrite !classify_scan_table.
    apply scan_table_mono; [apply THRESHOLDS_descending | exact Hab].
  - intros b Hb. rewrite classify_scan_table.
    eapply scan_table_below; [apply THRESHOLDS_lowest | exact Hb].
Qed.

Lemma C5_tier_monotonic_witness :
  geb (of_Z 600000) (of_Z 20000) = true
  /\ tier_index (classify (of_Z 20000)) <= tier_index (classify (of_Z 600000))
  /\ ltb (Fin (19999 # 2)) (of_Z 10000) = true
  /\ classify (Fin (19999 # 2)) = Microbe.
Proof.
  destruct C5_tier_monotonic as [_ [_ [Hmono Hlow]]].
  split; [reflexivity|]. split; [apply Hmono; reflexivity|].
  split; [reflexivity|]. apply Hlow. reflexivity.
Defined.

Example classify_boundaries :
  map classify [of_Z 9999; of_Z 10000; of_Z 49999; of_Z 50000;
                of_Z 999999999; of_Z 1000000000; PosInf; NaN]
  = [Microbe; Plankton; Plankton; Shrimp; Megalodon; Kraken; Kraken; Microbe].
Proof. reflexivity. Qed.

(* ================================================================= *)
(** ** From trustline records to raw holdings *)

Lemma abs_negative (q : Q) : (q < 0)%Q -> abs (Fin q) = Fin (Qred (- q)).
Proof.
  intro H. unfold abs. f_equal. apply Qred_complete.
  apply Qabs_neg. now apply Qlt_le_weak.
Qed.

Lemma toRawHolding_positive (line : XRPLTrustline) :
  gtb (raw_balance (toRawHolding line)) (of_Z 0)
  = ltb (parseFloat (line_balance line)) (of_Z 0).
Proof.
  unfold toRawHolding. cbn [raw_balance].
  destruct (parseFloat (line_balance line)) as [| | |q]; try reflexivity.
  destruct (ltb (Fin q) (of_Z 0)) eqn:E; [|reflexivity].
  unfold ltb, of_Z in E. pose proof E as E'. apply Qltb_lt in E'.
  rewrite (abs_negative E'). unfold gtb, ltb, of_Z.
  apply Qltb_lt. rewrite Qred_correct.
  apply (Qplus_lt_l _ _ q). ring_simplify. exact E'.
Qed.

Lemma holdersBatch_In (ls : list XRPLTrustline) (h : RawHolding) :
  In h (holdersBatch ls) <->
  exists line, In line ls
               /\ ltb (parseFloat (line_balance line)) (of_Z 0) = true
               /\ h = toRawHolding line.
Proof.
  unfold holdersBatch. rewrite filter_In, in_map_iff. split.
  - intros [[line [Hl Hin]] Hp]. exists line. subst h.
    rewrite toRawHolding_positive in Hp. auto.
  - intros [line [Hin [Hp Hh]]]. subst h. split; [now exists line|].
    now rewrite toRawHolding_positive.
Qed.

(** A record whose balance does not parse as a negative number leaves
    no trace in the batch. *)
Lemma holdersBatch_skip (l1 l2 : list XRPLTrustline) (line : XRPLTrustline) :
  ltb (parseFloat (line_balance line)) (of_Z 0) = false ->
  holdersBatch (l1 ++ line :: l2) = holdersBatch (l1 ++ l2).
Proof.
  intro H. unfold holdersBatch. rewrite !map_app, !filter_app.
  cbn [map filter]. now rewrite toRawHolding_positive, H.
Qed.

Lemma holdersBatch_positive (ls : list XRPLTrustline) :
  Forall (fun h => gtb (raw_balance h) (of_Z 0) = true) (holdersBatch ls).
Proof.
  apply Forall_forall. intros h Hh. unfold holdersBatch in Hh.
  now apply filter_In in Hh.
Qed.

Lemma gtb_not_nan (a b : number) : gtb a b = true -> a <> NaN.
Proof. destruct a, b; try discriminate; congruence. Qed.

(** A fulfilled page request never takes the [catch] path on account of
    its records: only the cancellation check can. *)
Lemma resume_fulfilled_outcome (batch : Batch) (sc : Scan) (now : N) (st : App) :
  aborted st = false ->
  match snd (resume (Fulfilled batch) sc now st) with
  | Suspended _ | Completed => True
  | _ => False
  end.
Proof.
  intro Hab. unfold resume, loop_head.
  destruct (marker_truthy (nextMarker batch)); [|exact I].
  destruct (isBackgroundUpdate sc); cbn [fst snd];
    unfold aborted in *; cbn [abortController setFetchStatus];
    rewrite Hab; exact I.
Qed.

Example toRawHolding_examples :
  map (fun s => raw_balance (toRawHolding (mkLine "r" s)))
      ["-500"; "300"; "0"; "-0"; "n/a"; ""; "-12.5"; "-Infinity"; "-1e3"]
  = [of_Z 500; of_Z 0; of_Z 0; of_Z 0; of_Z 0; of_Z 0; Fin (25 # 2); PosInf;
     of_Z 1000].
Proof. reflexivity. Qed.

(** C6: a record with signed balance [x] becomes a raw holding of
    balance [-x] when [x] is negative and of balance [0] when [x] is
    zero, positive or not a number; the batch keeps exactly the
    holdings of positive balance, those of the records with a negative
    balance; a record whose balance does not parse is dropped without a
    trace, and the scan goes on or completes as it would without it. *)
Theorem C6_balance_mapping :
  (forall (line : XRPLTrustline) (q : Q),
      parseFloat (line_balance line) = Fin q -> (q < 0)%Q ->
      toRawHolding line = mkRaw (line_account line) (Fin (Qred (- q))))
  /\ (forall line : XRPLTrustline,
        ltb (parseFloat (line_balance line)) (of_Z 0) = false ->
        toRawHolding line = mkRaw (line_account line) (of_Z 0))
  /\ (forall (ls : list XRPLTrustline) (h : RawHolding),
        In h (holdersBatch ls) <->
        exists line, In line ls
                     /\ ltb (parseFloat (line_balance line)) (of_Z 0) = true
                     /\ h = toRawHolding line)
  /\ (forall ls : list XRPLTrustline,
        Forall (fun h => gtb (raw_balance h) (of_Z 0) = true)
               (holdersBatch ls))
  /\ (forall (l1 l2 : list XRPLTrustline) (line : XRPLTrustline)
             (mk : option Marker) (sc : Scan) (now : N) (st : App),
        parseFloat (line_balance line) = NaN ->
        toRawHolding line = mkRaw (line_account line) (of_Z 0)
        /\ holdersBatch (l1 ++ line :: l2) = holdersBatch (l1 ++ l2)
        /\ resume (Fulfilled (mkBatch (l1 ++ line :: l2) mk)) sc now st
           = resume (Fulfilled (mkBatch (l1 ++ l2) mk)) sc now st)
  /\ (forall (batch : Batch) (sc : Scan) (now : N) (st : App),
        aborted st = false ->
        match snd (resume (Fulfilled batch) sc now st) with
        | Suspended _ | Completed => True
        | _ => False
        end).
Proof.
  split; [|split; [|split; [|split; [|split]]]].
  - intros line q Hq Hneg. unfold toRawHolding. rewrite Hq.
    assert (E : ltb (Fin q) (of_Z 0) = true) by now apply Qltb_lt.
    rewrite E. now rewrite abs_negative.
  - intros line H. unfold toRawHolding. now rewrite H.
  - apply holdersBatch_In.
  - apply holdersBatch_positive.
  - intros l1 l2 line mk sc now st Hnan.
    assert (H : ltb (parseFloat (line_balance line)) (of_Z 0) = false)
      by now rewrite Hnan.
    split; [unfold toRawHolding; now rewrite H|].
    split; [now apply holdersBatch_skip|].
    unfold resume. cbn [lines nextMarker].
    now rewrite (holdersBatch_skip l1 l2 line H).
  - apply resume_fulfilled_outcome.
Qed.

Lemma C6_balance_mapping_witness :
  let bad := mkLine "rBad" "n/a" in
  let sc := mkScan (render initialApp) [] None false in
  parseFloat (line_balance bad) = NaN
  /\ toRawHolding bad = mkRaw "rBad" (of_Z 0)
  /\ holdersBatch ([mkLine "rA" "-5"] ++ bad :: [mkLine "rB" "-7"])
     = holdersBatch ([mkLine "rA" "-5"] ++ [mkLine "rB" "-7"])
  /\ resume (Fulfilled (mkBatch ([mkLine "rA" "-5"] ++ bad :: [mkLine "rB" "-7"])
                          None)) sc 0%N initialApp
     = resume (Fulfilled (mkBatch ([mkLine "rA" "-5"] ++ [mkLine "rB" "-7"])
                            None)) sc 0%N initialApp.
Proof.
  intros bad sc. split; [reflexivity|].
  destruct C6_balance_mapping as [_ [_ [_ [_ [H _]]]]].
  exact (H [mkLine "rA" "-5"] [mkLine "rB" "-7"] bad None sc 0%N initialApp
           eq_refl).
Defined.

(* ================================================================= *)
(** ** The issuer switch *)

Section ListFacts.

Variable A : Type.
Variable p : A -> bool.

Lemma filter_partition_length (l : list A) :
  List.length (filter p l) + List.length (filter (fun x => negb (p x)) l)
  = List.length l.
Proof.
  induction l as [|x l IH]; simpl; [reflexivity|].
  destruct (p x); simpl; lia.
Qed.

(** An element that passes the filter lands behind the elements before
    it that pass too. *)
Lemma nth_error_filter (l : list A) (i : nat) (x : A) :
  nth_error l i = Some x -> p x = true ->
  nth_error (filter p l) (List.length (filter p (firstn i l))) = Some x.
Proof.
  revert i. induction l as [|y l IH]; intros [|i] H Hp; simpl in *;
    try discriminate.
  - inversion H; subst. now rewrite Hp.
  - destruct (p y); simpl; now apply IH.
Qed.

End ListFacts.

Lemma nth_error_mapi_from {A B : Type} (f : A -> nat -> B) (s i : nat)
  (l : list A) :
  nth_error (mapi_from f s l) i
  = option_map (fun x => f x (s + i)) (nth_error l i).
Proof.
  revert s i. induction l as [|y l IH]; intros s [|i]; simpl; try reflexivity.
  - now rewrite Nat.add_0_r.
  - rewrite IH. now rewrite Nat.add_succ_r.
Qed.

Lemma firstn_mapi_from {A B : Type} (f : A -> nat -> B) (s i : nat)
  (l : list A) :
  firstn i (mapi_from f s l) = mapi_from f s (firstn i l).
Proof.
  revert s i. induction l as [|y l IH]; intros s [|i]; simpl; try reflexivity.
  now rewrite IH.
Qed.

Lemma count_issuer_mapi_from (b : number) (s : nat) (l : list RawHolding) :
  List.length (filter isIssuer (mapi_from (toHolder b) s l))
  = List.length (filter (fun x => negb (notIssuer x)) l).
Proof.
  revert s. induction l as [|y l IH]; intro s; simpl; [reflexivity|].
  unfold isIssuer at 1, notIssuer at 1. cbn [account toHolder].
  rewrite negb_involutive.
  destruct (String.eqb (raw_account y) ISSUER); simpl; now rewrite IH.
Qed.

(** What the switch does to the published list, stated on lists sorted
    or not. *)
Lemma exclusion_shift (b : number) (l : list RawHolding) (i : nat)
  (h : Holder) :
  nth_error (mapi (toHolder b) l) i = Some h ->
  isIssuer h = false ->
  let k := List.length (filter isIssuer (firstn i (mapi (toHolder b) l))) in
  k <= i
  /\ nth_error (mapi (toHolder b) (filter notIssuer l)) (i - k)
     = Some (with_rank (rank h - k) h).
Proof.
  intros Hn Hi k. subst k. unfold mapi in *.
  rewrite firstn_mapi_from, count_issuer_mapi_from.
  rewrite nth_error_mapi_from in Hn.
  destruct (nth_error l i) as [x|] eqn:Ex; [|discriminate].
  simpl in Hn. inversion Hn; subst h; clear Hn.
  assert (Hx : notIssuer x = true).
  { unfold isIssuer in Hi. cbn [account toHolder] in Hi.
    unfold notIssuer. now rewrite Hi. }
  assert (Hlen : List.length (firstn i l) = i).
  { apply firstn_length_le. apply Nat.lt_le_incl.
    apply nth_error_Some. congruence. }
  pose proof (filter_partition_length notIssuer (firstn i l)) as Hp.
  rewrite Hlen in Hp.
  set (k := List.length (filter (fun x => negb (notIssuer x)) (firstn i l))) in *.
  split; [lia|].
  replace (i - k) with (List.length (filter notIssuer (firstn i l))) by lia.
  rewrite nth_error_mapi_from, (nth_error_filter notIssuer l i Ex Hx).
  simpl. unfold with_rank, toHolder. cbn [rank account balance percentage tier
    walletLabel walletType]. f_equal. f_equal. lia.
Qed.

Example two_issuer_lines_kept :
  map (fun h => (rank h, account h)) (aggregate two_issuer_lines false None)
  = [(1, "rX"); (2, ISSUER); (3, ISSUER); (4, "rY")].
Proof. reflexivity. Qed.

Example two_issuer_lines_excluded :
  map (fun h => (rank h, account h)) (aggregate two_issuer_lines true None)
  = [(1, "rX"); (2, "rY")].
Proof. reflexivity. Qed.

(** C7, as stated, fails: when two raw holdings carry the issuer
    account, the switch removes both, and the rank of a later entry
    drops by two. *)
Lemma C7_issuer_removed_twice :
  ~ (List.length (aggregate two_issuer_lines false None)
     <= 1 + List.length (aggregate two_issuer_lines true None))
  /\ map rank (filter (fun h => String.eqb (account h) "rY")
                 (aggregate two_issuer_lines false None)) = [4]
  /\ map rank (filter (fun h => String.eqb (account h) "rY")
                 (aggregate two_issuer_lines true None)) = [2].
Proof.
  split; [|split; reflexivity].
  intro H. vm_compute in H. lia.
Qed.

(** C7, amended: with [excludeIssuer] set, aggregation removes from the
    sorted sequence exactly the entries whose account is the issuer
    account, keeping the others in order; an entry that stays has its
    rank lowered by the number of removed entries sorted ahead of it;
    when at most one raw holding carries the issuer account, at most
    one entry is removed.  With [excludeIssuer] unset nothing is
    removed: the published accounts and balances are a permutation of
    the input. *)
Theorem C7_issuer_exclusion :
  forall (raw : list RawHolding) (m : option TokenMetrics),
    let all := aggregate raw false m in
    let out := aggregate raw true m in
    map raw_of out = filter notIssuer (map raw_of all)
    /\ (forall (i : nat) (h : Holder),
          nth_error all i = Some h -> isIssuer h = false ->
          let k := List.length (filter isIssuer (firstn i all)) in
          k <= i /\ nth_error out (i - k) = Some (with_rank (rank h - k) h))
    /\ (List.length (filter (fun x => negb (notIssuer x)) raw) <= 1 ->
        List.length all <= 1 + List.length out
        /\ forall i : nat,
             List.length (filter isIssuer (firstn i all)) <= 1)
    /\ Permutation (map raw_of all) raw.
Proof.
  intros raw m all out. subst all out.
  split; [|split; [|split]].
  - now rewrite !aggregate_raw.
  - intros i h Hn Hi. unfold aggregate in *. cbn [kept] in *.
    now apply exclusion_shift.
  - intro Hone.
    assert (Hs : List.length
                   (filter (fun x => negb (notIssuer x))
                           (js_sort comparator raw)) <= 1).
    { rewrite (Permutation_length
                 (Permutation_filter _ (js_sort_perm comparator raw))).
      exact Hone. }
    split.
    + unfold aggregate, mapi. rewrite !mapi_from_length.
      pose proof (filter_partition_length notIssuer (js_sort comparator raw)).
      lia.
    + intro i. unfold aggregate, mapi.
      rewrite firstn_mapi_from, count_issuer_mapi_from.
      etransitivity; [|exact Hs].
      rewrite <- (firstn_skipn i (js_sort comparator raw)) at 2.
      rewrite filter_app, length_app. lia.
  - rewrite aggregate_raw. apply js_sort_perm.
Qed.

Lemma C7_issuer_exclusion_witness :
  let all := aggregate sample_raw false None in
  let out := aggregate sample_raw true None in
  nth_error all 2 = Some (toHolder FALLBACK_SUPPLY (mkRaw "rA" (of_Z 100)) 2)
  /\ List.length (filter (fun x => negb (notIssuer x)) sample_raw) <= 1
  /\ nth_error out 1
     = Some (with_rank 2 (toHolder FALLBACK_SUPPLY (mkRaw "rA" (of_Z 100)) 2))
  /\ List.length all <= 1 + List.length out.
Proof.
  intros all out.
  destruct (C7_issuer_exclusion sample_raw None) as [_ [Hshift [Hone _]]].
  assert (H1 : List.length (filter (fun x => negb (notIssuer x)) sample_raw) <= 1)
    by (vm_compute; apply Nat.le_refl).
  split; [reflexivity|]. split; [exact H1|]. split.
  - exact (proj2 (Hshift 2 _ eq_refl eq_refl)).
  - exact (proj1 (Hone H1)).
Defined.

(* ================================================================= *)
(** ** The scan loop *)

Lemma resume_continue (b : Batch) (sc : Scan) (now : N) (st : App) :
  continuing b -> aborted st = false ->
  let all := allLines sc ++ holdersBatch (lines b) in
  resume (Fulfilled b) sc now st
  = (if isBackgroundUpdate sc then st
     else setFetchStatus (progress (List.length all)) st,
     Suspended (mkScan (sc_closure sc) all (nextMarker b)
                       (isBackgroundUpdate sc))).
Proof.
  intros Hc Ha all. unfold resume, loop_head. rewrite Hc.
  destruct (isBackgroundUpdate sc); unfold aborted in *;
    cbn [abortController setFetchStatus]; now rewrite Ha.
Qed.

Lemma resume_cancelled (b : Batch) (sc : Scan) (now : N) (st : App) :
  continuing b -> aborted st = true ->
  let all := allLines sc ++ holdersBatch (lines b) in
  resume (Fulfilled b) sc now st
  = (scan_catch "Scan aborted by user"
       (if isBackgroundUpdate sc then st
        else setFetchStatus (progress (List.length all)) st),
     Caught "Scan aborted by user").
Proof.
  intros Hc Ha all. unfold resume, loop_head. rewrite Hc.
  destruct (isBackgroundUpdate sc); unfold aborted in *;
    cbn [abortController setFetchStatus]; now rewrite Ha.
Qed.

Lemma resume_last (b : Batch) (sc : Scan) (now : N) (st : App) :
  marker_truthy (nextMarker b) = false ->
  let all := allLines sc ++ holdersBatch (lines b) in
  resume (Fulfilled b) sc now st
  = (processResults all (isBackgroundUpdate sc) (sc_closure sc) now
       (if isBackgroundUpdate sc then st
        else setFetchStatus (progress (List.length all)) st),
     Completed).
Proof. intros Hc all. unfold resume. now rewrite Hc. Qed.

(** Nothing but a completed scan touches the published list. *)
Lemma resume_holders (r : Settled) (sc : Scan) (now : N) (st : App) :
  snd (resume r sc now st) <> Completed ->
  holders (fst (resume r sc now st)) = holders st
  /\ lastUpdated (fst (resume r sc now st)) = lastUpdated st.
Proof.
  destruct r as [b|msg]; [|intros _; split; reflexivity].
  unfold resume, loop_head.
  destruct (marker_truthy (nextMarker b)); [|intro H; now elim H].
  intros _.
  destruct (isBackgroundUpdate sc);
    match goal with |- context [if aborted ?s then _ else _] =>
      destruct (aborted s) end; split; reflexivity.
Qed.

Lemma startScan_holders (cl : Closure) (st : App) :
  holders (fst (startScan cl st)) = holders st
  /\ lastUpdated (fst (startScan cl st)) = lastUpdated st.
Proof.
  unfold startScan. destruct (isFetching (cl_fetchStatus cl)); split; reflexivity.
Qed.

Lemma stopScan_holders (st : App) :
  holders (stopScan st) = holders st /\ lastUpdated (stopScan st) = lastUpdated st.
Proof. unfold stopScan. destruct (abortController st); split; reflexivity. Qed.

Lemma feed_holders (rs : list Settled) (sc : Scan) (now : N) (st : App) :
  snd (feed rs sc now st) <> Completed ->
  holders (fst (feed rs sc now st)) = holders st.
Proof.
  revert sc st. induction rs as [|r rs IH]; intros sc st; cbn [feed];
    [reflexivity|].
  pose proof (resume_holders r sc now st) as Hr.
  destruct (resume r sc now st) as [st' [| sc' | |msg]]; cbn [fst snd] in *;
    intro H; try (apply Hr; congruence).
  rewrite (IH sc' st' H). apply Hr. discriminate.
Qed.

(** A run of continuing pages: what the invocation has gathered, and
    every status update it made on the way. *)
Lemma feed_continue (pages : list Batch) (sc : Scan) (now : N) (st : App) :
  Forall continuing pages -> aborted st = false ->
  exists st',
    feed (map Fulfilled pages) sc now st
    = (st', Suspended (mkScan (sc_closure sc) (allLines sc ++ gathered pages)
                              (last_marker (marker sc) pages)
                              (isBackgroundUpdate sc)))
    /\ holders st' = holders st
    /\ abortController st' = abortController st
    /\ isLiveUpdate st' = isLiveUpdate st
    /\ (isBackgroundUpdate sc = true -> st' = st)
    /\ (isBackgroundUpdate sc = false ->
        statusLog st'
        = rev (map (fun n => progress n (fetchStatus st))
                   (running_counts (List.length (allLines sc)) pages))
          ++ statusLog st
        /\ fetchStatus st'
           = hd (fetchStatus st)
                (rev (map (fun n => progress n (fetchStatus st))
                          (running_counts (List.length (allLines sc)) pages)))).
Proof.
  intros Hp. revert sc st.
  induction Hp as [|b pages Hb Hps IH]; intros sc st Ha.
  - exists st. cbn. unfold gathered. cbn. rewrite app_nil_r.
    destruct sc; repeat split; reflexivity.
  - cbn [map feed]. rewrite (@resume_continue b sc now st Hb Ha). cbv zeta.
    set (all := allLines sc ++ holdersBatch (lines b)).
    set (st1 := if isBackgroundUpdate sc then st
                else setFetchStatus (progress (List.length all)) st).
    assert (Ha1 : aborted st1 = false)
      by (subst st1; destruct (isBackgroundUpdate sc); exact Ha).
    destruct (IH (mkScan (sc_closure sc) all (nextMarker b)
                         (isBackgroundUpdate sc)) st1 Ha1)
      as [st' [Hf [Hh [Hac [Hlv [Hbg Hin]]]]]].
    exists st'. cbn [sc_closure allLines marker isBackgroundUpdate] in *.
    split.
    { rewrite Hf. unfold gathered, all. cbn [map concat last_marker fold_left].
      now rewrite <- app_assoc. }
    split; [rewrite Hh; subst st1; now destruct (isBackgroundUpdate sc)|].
    split; [rewrite Hac; subst st1; now destruct (isBackgroundUpdate sc)|].
    split; [rewrite Hlv; subst st1; now destruct (isBackgroundUpdate sc)|].
    split.
    { intro E. rewrite (Hbg E). subst st1. now rewrite E. }
    intro E. destruct (Hin E) as [Hlog Hfs]. subst st1. rewrite E in *.
    cbn [running_counts map rev]. unfold all in *. rewrite length_app in *.
    cbn [fetchStatus statusLog setFetchStatus] in *.
    set (n1 := List.length (allLines sc)
               + List.length (holdersBatch (lines b))) in *.
    assert (Hpp : forall n, progress n (progress n1 (fetchStatus st))
                            = progress n (fetchStatus st)) by reflexivity.
    rewrite (map_ext _ _ Hpp) in Hlog, Hfs.
    split.
    + rewrite Hlog. now rewrite <- app_assoc.
    + rewrite Hfs.
      destruct (rev (map (fun n => progress n (fetchStatus st))
                         (running_counts n1 pages))); reflexivity.
Qed.

Lemma feed_app (rs1 rs2 : list Settled) (sc sc1 : Scan) (now : N)
  (st st1 : App) :
  feed rs1 sc now st = (st1, Suspended sc1) ->
  feed (rs1 ++ rs2) sc now st = feed rs2 sc1 now st1.
Proof.
  revert sc st. induction rs1 as [|r rs1 IH]; intros sc st; cbn [feed List.app].
  - intro H. now inversion H.
  - destruct (resume r sc now st) as [st' [| sc' | |msg]]; try discriminate.
    apply IH.
Qed.

(** ** The published list changes on the last page of a scan only *)

Section Frame.

Lemma same_result_refl (w : World) : same_result w w.
Proof. split; reflexivity. Qed.

Lemma same_result_trans (w1 w2 w3 : World) :
  same_result w1 w2 -> same_result w2 w3 -> same_result w1 w3.
Proof. intros [A B] [C D]. split; congruence. Qed.

Lemma clearTimeout_app (h : option nat) (w : World) :
  app (clearTimeout h w) = app w.
Proof. destruct h; reflexivity. Qed.

Lemma call_startScan_same (cl : Closure) (w : World) :
  same_result w (call_startScan cl w).
Proof.
  unfold call_startScan, same_result.
  pose proof (startScan_holders cl (app w)) as H.
  destruct (startScan cl (app w)) as [st o]. exact H.
Qed.

Lemma liveUpdateEffect_same (w : World) : same_result w (liveUpdateEffect w).
Proof.
  unfold liveUpdateEffect.
  destruct (isLiveUpdate (app w) && negb (isFetching (fetchStatus (app w))));
    [|(split; reflexivity)].
  destruct (complete (fetchStatus (app w))); [(split; reflexivity)|].
  destruct (List.length (holders (app w)) =? 0); [|(split; reflexivity)].
  exact (call_startScan_same (render (app w)) w).
Qed.

Lemma commit1_same (w : World) : same_result w (commit1 w).
Proof.
  unfold commit1. destruct (deps_changed w); [|(split; reflexivity)].
  eapply same_result_trans; [|apply liveUpdateEffect_same].
  unfold same_result, cleanup, set_effDeps. cbn [app].
  rewrite clearTimeout_app. split; reflexivity.
Qed.

Lemma commit_same (w : World) : same_result w (commit w).
Proof.
  unfold commit. eapply same_result_trans; apply commit1_same.
Qed.

Lemma run_timer_same (t : Timer) (w : World) : same_result w (run_timer t w).
Proof.
  unfold run_timer.
  eapply same_result_trans; [|apply commit_same].
  eapply same_result_trans; [|apply call_startScan_same].
  unfold same_result. rewrite clearTimeout_app. split; reflexivity.
Qed.

Lemma fire_same (fuel : nat) (w : World) : same_result w (fire fuel w).
Proof.
  revert w. induction fuel as [|n IH]; intro w; cbn [fire];
    [(split; reflexivity)|].
  destruct (find _ (timers w)) as [t|]; [|(split; reflexivity)].
  eapply same_result_trans; [apply run_timer_same | apply IH].
Qed.

Lemma elapse_same (dt : N) (w : World) : same_result w (elapse dt w).
Proof.
  unfold elapse.
  eapply same_result_trans; [|apply fire_same]. (split; reflexivity).
Qed.

Lemma step_frame (e : Event) (w : World) :
  same_result w (step e w)
  \/ exists sc b,
       last_page_of w e sc b
       /\ holders (app (step e w))
          = aggregate (allLines sc ++ holdersBatch (lines b))
              (cl_excludeIssuer (sc_closure sc)) (cl_metrics (sc_closure sc))
       /\ lastUpdated (app (step e w)) = Some (clock w).
Proof.
  destruct e as [| | | |m|i r|dt]; cbn [step].
  - left. eapply same_result_trans; [apply call_startScan_same|apply commit_same].
  - left. eapply same_result_trans; [|apply commit_same].
    exact (stopScan_holders (app w)).
  - left. eapply same_result_trans; [|apply commit_same]. (split; reflexivity).
  - left. eapply same_result_trans; [|apply commit_same]. (split; reflexivity).
  - left. eapply same_result_trans; [|apply commit_same]. (split; reflexivity).
  - destruct (commit_same (settle i r w)) as [Hh Hl].
    unfold settle in *.
    destruct (nth_error (pending w) i) as [sc|] eqn:Ei;
      [|left; split; assumption].
    pose proof (resume_holders r sc (clock w) (app w)) as Hr.
    destruct r as [b|msg].
    + destruct (marker_truthy (nextMarker b)) eqn:Em.
      * left. destruct (resume (Fulfilled b) sc (clock w) (app w)) as [st o] eqn:Er.
        cbn [app fst snd] in *.
        assert (Ho : o <> Completed).
        { unfold resume, loop_head in Er. rewrite Em in Er.
          match type of Er with context [if aborted ?s then _ else _] =>
            destruct (aborted s) end; inversion Er; discriminate. }
        destruct (Hr Ho) as [H1 H2]. split; congruence.
      * right. exists sc, b. split; [exists i; auto|].
        rewrite (@resume_last b sc (clock w) (app w) Em) in Hh, Hl |- *.
        cbv zeta in Hh, Hl |- *. cbn [app] in Hh, Hl.
        rewrite Hh, Hl. rewrite processResults_holders.
        split; [reflexivity|].
        unfold processResults. destruct (isBackgroundUpdate sc); reflexivity.
    + left. destruct (resume (Rejected msg) sc (clock w) (app w)) as [st o] eqn:Er.
      cbn [app fst snd] in *. inversion Er; subst.
      split; [rewrite Hh | rewrite Hl]; reflexivity.
  - left. apply elapse_same.
Qed.

End Frame.

Lemma stopScan_aborts (st : App) (b : bool) :
  abortController st = Some b ->
  aborted (stopScan st) = true /\ holders (stopScan st) = holders st.
Proof. intro H. unfold stopScan, aborted. rewrite H. split; reflexivity. Qed.

Lemma startScan_enters (cl : Closure) (st : App) :
  isFetching (cl_fetchStatus cl) = false ->
  let bg := 0 <? List.length (cl_holders cl) in
  exists st',
    startScan cl st = (st', Suspended (mkScan cl [] None bg))
    /\ fetchStatus st'
       = {| isFetching := true; linesFetched := 0;
            statusMessage := if bg then statusMessage (cl_fetchStatus cl)
                             else "Initializing connection to XRPL...";
            error := None; complete := false |}
    /\ statusLog st' = fetchStatus st' :: statusLog st
    /\ abortController st' = Some false
    /\ holders st' = holders st
    /\ isLiveUpdate st' = isLiveUpdate st.
Proof.
  intros H bg. unfold startScan. rewrite H. unfold loop_head, aborted.
  cbn [abortController setAbortController]. eexists. split; [reflexivity|].
  repeat split.
Qed.

(** C2: a scan whose cancellation check finds the signal raised ends in
    the [catch] block without aggregating: the published list and its
    time stamp stay as they were, after any number of pages.  No event
    changes the published list except the arrival of the last page of
    a scan, which replaces it at once by the aggregation of all the
    pages of that scan. *)
Theorem C2_no_partial_publication :
  (forall (b : Batch) (sc : Scan) (now : N) (st : App),
      continuing b -> aborted st = true ->
      let r := resume (Fulfilled b) sc now st in
      snd r = Caught "Scan aborted by user"
      /\ holders (fst r) = holders st
      /\ lastUpdated (fst r) = lastUpdated st)
  /\ (forall (pages : list Batch) (b : Batch) (sc : Scan) (now : N) (st : App),
        Forall continuing pages -> continuing b ->
        abortController st = Some false ->
        exists st1 sc1,
          feed (map Fulfilled pages) sc now st = (st1, Suspended sc1)
          /\ holders st1 = holders st
          /\ let r := resume (Fulfilled b) sc1 now (stopScan st1) in
             snd r = Caught "Scan aborted by user"
             /\ holders (fst r) = holders st)
  /\ (forall (e : Event) (w : World),
        same_result w (step e w)
        \/ exists sc b,
             last_page_of w e sc b
             /\ holders (app (step e w))
                = aggregate (allLines sc ++ holdersBatch (lines b))
                    (cl_excludeIssuer (sc_closure sc))
                    (cl_metrics (sc_closure sc))
             /\ lastUpdated (app (step e w)) = Some (clock w))
  /\ (forall (pages : list Batch) (b : Batch) (sc : Scan) (now : N) (st : App),
        Forall continuing pages -> marker_truthy (nextMarker b) = false ->
        aborted st = false ->
        exists st',
          feed (map Fulfilled (pages ++ [b])) sc now st = (st', Completed)
          /\ holders st'
             = aggregate (allLines sc ++ gathered (pages ++ [b]))
                 (cl_excludeIssuer (sc_closure sc))
                 (cl_metrics (sc_closure sc))).
Proof.
  split; [|split; [|split]].
  - intros b sc now st Hb Ha r. subst r.
    rewrite (@resume_cancelled b sc now st Hb Ha). cbv zeta. cbn [fst snd].
    destruct (isBackgroundUpdate sc); repeat split.
  - intros pages b sc now st Hp Hb Hac.
    assert (Ha : aborted st = false) by (unfold aborted; now rewrite Hac).
    destruct (@feed_continue pages sc now st Hp Ha)
      as [st1 [Hf [Hh [Hc _]]]].
    eexists st1, _. split; [exact Hf|]. split; [exact Hh|].
    rewrite Hac in Hc. destruct (stopScan_aborts st1 Hc) as [Hs Hhs].
    rewrite (@resume_cancelled b _ now (stopScan st1) Hb Hs).
    cbv zeta. cbn [fst snd isBackgroundUpdate]. split; [reflexivity|].
    rewrite <- Hh, <- Hhs. destruct (isBackgroundUpdate sc); reflexivity.
  - apply step_frame.
  - intros pages b sc now st Hp Hb Ha.
    destruct (@feed_continue pages sc now st Hp Ha) as [st1 [Hf _]].
    rewrite map_app. erewrite feed_app by exact Hf. cbn [map feed].
    rewrite (@resume_last b _ now st1 Hb). cbv zeta. eexists. split; [reflexivity|].
    rewrite processResults_holders.
    cbn [allLines sc_closure isBackgroundUpdate].
    unfold gathered. rewrite map_app, concat_app. cbn [map List.concat].
    now rewrite app_nil_r, <- app_assoc.
Qed.

Lemma C2_no_partial_publication_witness :
  let st := fst (startScan (render initialApp) initialApp) in
  let sc := mkScan (render initialApp) [] None false in
  Forall continuing [Fixture.page1] /\ continuing Fixture.page1
  /\ abortController st = Some false
  /\ exists st1 sc1,
       feed (map Fulfilled [Fixture.page1]) sc 0%N st = (st1, Suspended sc1)
       /\ holders st1 = holders st
       /\ let r := resume (Fulfilled Fixture.page1) sc1 0%N (stopScan st1) in
          snd r = Caught "Scan aborted by user"
          /\ holders (fst r) = holders st.
Proof.
  intros st sc.
  assert (H1 : Forall continuing [Fixture.page1])
    by (repeat constructor).
  assert (H2 : continuing Fixture.page1) by reflexivity.
  assert (H3 : abortController st = Some false) by reflexivity.
  split; [exact H1|]. split; [exact H2|]. split; [exact H3|].
  destruct C2_no_partial_publication as [_ [H _]].
  exact (H [Fixture.page1] Fixture.page1 sc 0%N st H1 H2 H3).
Defined.

(* ================================================================= *)
(** ** Cancellation against failure *)

(** A cancellation found by the loop is handled as the rejection of a
    page request with the message ["Scan aborted by user"]. *)
Lemma cancellation_is_rejection (b : Batch) (sc : Scan) (now : N) (st : App) :
  continuing b -> aborted st = true ->
  resume (Fulfilled b) sc now st
  = resume (Rejected "Scan aborted by user") sc now
      (if isBackgroundUpdate sc then st
       else setFetchStatus
              (progress (List.length (allLines sc ++ holdersBatch (lines b))))
              st).
Proof. intros Hb Ha. now rewrite (@resume_cancelled b sc now st Hb Ha). Qed.

(** C3 does not hold of the code: the cancellation check throws into
    the same [catch] block as a failed request.  After a stop in
    mid-scan the status is that of a failure, the message
    ["Scan stopped by user."] that [stopScan] had set is overwritten,
    and the cancellation is recorded as the error detail. *)
Theorem C3_cancellation_ends_as_error :
  let stopped := app (run Cancel.stopped_mid_scan initialWorld) in
  let failed := app (run Cancel.failed_mid_scan initialWorld) in
  fetchStatus stopped
  = {| isFetching := false; linesFetched := 1;
       statusMessage := "Error during scan.";
       error := Some "Scan aborted by user"; complete := false |}
  /\ fetchStatus failed
     = {| isFetching := false; linesFetched := 0;
          statusMessage := "Error during scan.";
          error := Some "Network error"; complete := false |}
  /\ map statusMessage (statusLog stopped)
     = [ "Error during scan.";
         "Scanning ledger... found 1 holders so far";
         "Scan stopped by user.";
         "Initializing connection to XRPL..." ].
Proof. repeat split. Qed.

(* ================================================================= *)
(** ** Progress reporting *)

Lemma gathered_cons (b : Batch) (pages : list Batch) :
  gathered (b :: pages) = holdersBatch (lines b) ++ gathered pages.
Proof. reflexivity. Qed.

(** The newest entry of the progress log carries the total count. *)
Lemma newest_progress (f : nat -> FetchStatus) (d : FetchStatus) (n : nat)
  (pages : list Batch) :
  pages <> [] ->
  hd d (rev (map f (running_counts n pages)))
  = f (n + List.length (gathered pages)).
Proof.
  revert n. induction pages as [|b pages IH]; intros n Hne; [now elim Hne|].
  cbn [running_counts map rev]. rewrite gathered_cons, length_app.
  destruct pages as [|b' pages].
  - cbn. now rewrite Nat.add_0_r.
  - assert (Hne' : b' :: pages <> []) by discriminate.
    specialize (IH (n + List.length (holdersBatch (lines b))) Hne').
    rewrite Nat.add_assoc.
    destruct (rev (map f (running_counts
                            (n + List.length (holdersBatch (lines b)))
                            (b' :: pages)))) as [|x l] eqn:E.
    + exfalso. apply (f_equal (@List.length _)) in E.
      rewrite length_rev, length_map in E. cbn in E. discriminate.
    + cbn [hd List.app] in *. exact IH.
Qed.

(** C8: a scan is a background rescan exactly when it starts with a
    non-empty published list; it then keeps the status message it found.
    Through any number of pages of its loop a background rescan makes
    no status update at all (the whole component state is unchanged)
    and its only update is the final one; an initial scan makes one
    update per page, carrying the number of holders gathered so far. *)
Theorem C8_background_rescan_quiet :
  (forall (cl : Closure) (st : App),
      isFetching (cl_fetchStatus cl) = false ->
      let bg := 0 <? List.length (cl_holders cl) in
      exists st',
        startScan cl st = (st', Suspended (mkScan cl [] None bg))
        /\ fetchStatus st'
           = {| isFetching := true; linesFetched := 0;
                statusMessage := if bg then statusMessage (cl_fetchStatus cl)
                                 else "Initializing connection to XRPL...";
                error := None; complete := false |})
  /\ (forall (pages : list Batch) (sc : Scan) (now : N) (st : App),
        isBackgroundUpdate sc = true ->
        Forall continuing pages -> aborted st = false ->
        fst (feed (map Fulfilled pages) sc now st) = st)
  /\ (forall (b : Batch) (sc : Scan) (now : N) (st : App),
        isBackgroundUpdate sc = true ->
        marker_truthy (nextMarker b) = false ->
        let st' := fst (resume (Fulfilled b) sc now st) in
        statusLog st' = fetchStatus st' :: statusLog st
        /\ fetchStatus st' = completeStatus (List.length (holders st')))
  /\ (forall (pages : list Batch) (sc : Scan) (now : N) (st : App),
        isBackgroundUpdate sc = false ->
        Forall continuing pages -> aborted st = false ->
        let st' := fst (feed (map Fulfilled pages) sc now st) in
        statusLog st'
        = rev (map (fun n => progress n (fetchStatus st))
                   (running_counts (List.length (allLines sc)) pages))
          ++ statusLog st
        /\ (pages <> [] ->
            fetchStatus st'
            = progress (List.length (allLines sc ++ gathered pages))
                       (fetchStatus st))).
Proof.
  split; [|split; [|split]].
  - intros cl st H bg.
    destruct (@startScan_enters cl st H) as [st' [H1 [H2 _]]].
    exists st'. split; assumption.
  - intros pages sc now st Hbg Hp Ha.
    destruct (@feed_continue pages sc now st Hp Ha)
      as [st' [Hf [_ [_ [_ [Hq _]]]]]].
    rewrite Hf. cbn [fst]. now apply Hq.
  - intros b sc now st Hbg Hb st'. subst st'.
    rewrite (@resume_last b sc now st Hb). cbv zeta. rewrite Hbg. cbn [fst].
    unfold processResults. split; reflexivity.
  - intros pages sc now st Hbg Hp Ha st'. subst st'.
    destruct (@feed_continue pages sc now st Hp Ha)
      as [st' [Hf [_ [_ [_ [_ Hq]]]]]].
    rewrite Hf. cbn [fst]. destruct (Hq Hbg) as [Hlog Hfs].
    split; [exact Hlog|]. intro Hne. rewrite Hfs, length_app.
    now apply newest_progress.
Qed.

Lemma C8_background_rescan_quiet_witness :
  let published := app (run Fixture.whole_scan initialWorld) in
  let rescan := startScan (render published) published in
  let sc := mkScan (render published) [] None true in
  snd rescan = Suspended sc
  /\ statusMessage (fetchStatus (fst rescan)) = "Scan complete."
  /\ fst (feed (map Fulfilled [Fixture.page1; Fixture.page1]) sc 0%N
            (fst rescan))
     = fst rescan
  /\ map statusMessage
       (statusLog
          (fst (feed (map Fulfilled [Fixture.page1; Fixture.page1])
                  (mkScan (render initialApp) [] None false) 0%N
                  (fst (startScan (render initialApp) initialApp)))))
     = [ "Scanning ledger... found 2 holders so far";
         "Scanning ledger... found 1 holders so far";
         "Initializing connection to XRPL..." ].
Proof.
  intros published rescan sc.
  destruct C8_background_rescan_quiet as [_ [Hquiet _]].
  split; [reflexivity|]. split; [reflexivity|]. split; [|reflexivity].
  apply Hquiet; [reflexivity | repeat constructor | reflexivity].
Defined.

(* ================================================================= *)
(** ** The final count *)

(** C10: the status a completed scan publishes is the complete status
    with the length of the published holder list as its count: the
    number of holdings of positive balance that the issuer switch kept,
    which is at most, and can be less than, the number of records
    fetched. *)
Theorem C10_final_count_is_holder_count :
  (forall (raw : list RawHolding) (bg : bool) (cl : Closure) (now : N)
          (st : App),
      let st' := processResults raw bg cl now st in
      fetchStatus st' = completeStatus (List.length (holders st'))
      /\ List.length (holders st')
         = List.length (kept (cl_excludeIssuer cl) raw))
  /\ (forall (b : Batch) (sc : Scan) (now : N) (st : App),
        marker_truthy (nextMarker b) = false ->
        let r := resume (Fulfilled b) sc now st in
        snd r = Completed
        /\ linesFetched (fetchStatus (fst r)) = List.length (holders (fst r))
        /\ List.length (holders (fst r))
           = List.length (kept (cl_excludeIssuer (sc_closure sc))
                            (allLines sc ++ holdersBatch (lines b)))
        /\ List.length (holders (fst r))
           <= List.length (allLines sc) + List.length (lines b))
  /\ (let w := run Fixture.whole_scan initialWorld in
      linesFetched (fetchStatus (app w)) = 2
      /\ List.length (holders (app w)) = 2
      /\ List.length (lines Fixture.page1 ++ lines Fixture.page2) = 3).
Proof.
  assert (Hlen : forall raw excl m,
             List.length (aggregate raw excl m)
             = List.length (kept excl raw)).
  { intros raw excl m.
    rewrite <- (length_map raw_of), aggregate_raw.
    apply Permutation_length, kept_perm, js_sort_perm. }
  assert (Hkept : forall excl (l : list RawHolding),
             List.length (kept excl l) <= List.length l).
  { intros [|] l; cbn [kept]; [|apply Nat.le_refl].
    pose proof (filter_partition_length notIssuer l). lia. }
  split; [|split].
  - intros raw bg cl now st st'. subst st'.
    rewrite processResults_holders. split; [|apply Hlen].
    unfold processResults. destruct bg; reflexivity.
  - intros b sc now st Hb r. subst r.
    rewrite (@resume_last b sc now st Hb). cbv zeta. cbn [fst snd].
    rewrite processResults_holders, Hlen.
    split; [reflexivity|]. split; [|split; [reflexivity|]].
    + unfold processResults. destruct (isBackgroundUpdate sc);
        cbn [fetchStatus setFetchStatus linesFetched]; apply Hlen.
    + etransitivity; [apply Hkept|]. rewrite length_app.
      apply Nat.add_le_mono_l. unfold holdersBatch.
      pose proof (filter_partition_length
                    (fun h => gtb (raw_balance h) (of_Z 0))
                    (map toRawHolding (lines b))) as H.
      rewrite length_map in H. lia.
  - repeat split.
Qed.

Lemma C10_final_count_is_holder_count_witness :
  let r := resume (Fulfilled Fixture.page2)
             (mkScan (render initialApp) [mkRaw ISSUER (of_Z 3)] None false)
             0%N initialApp in
  marker_truthy (nextMarker Fixture.page2) = false
  /\ snd r = Completed
  /\ linesFetched (fetchStatus (fst r)) = List.length (holders (fst r))
  /\ linesFetched (fetchStatus (fst r)) = 1.
Proof.
  intro r. destruct C10_final_count_is_holder_count as [_ [H _]].
  destruct (H Fixture.page2
              (mkScan (render initialApp) [mkRaw ISSUER (of_Z 3)] None false)
              0%N initialApp eq_refl) as [H1 [H2 _]].
  split; [reflexivity|]. split; [exact H1|]. split; [exact H2|reflexivity].
Defined.

(* ================================================================= *)
(** ** Live update *)

Section Scheduler.

Lemma deps_eqb_refl (d : Deps) : deps_eqb d d = true.
Proof.
  unfold deps_eqb. now rewrite !Bool.eqb_reflx, Nat.eqb_refl.
Qed.

Lemma deps_eqb_eq (a b : Deps) : deps_eqb a b = true -> a = b.
Proof.
  destruct a, b. unfold deps_eqb. cbn.
  rewrite !andb_true_iff. intros [[[H1 H2] H3] H4].
  apply Bool.eqb_prop in H1, H2, H3. apply Nat.eqb_eq in H4. now subst.
Qed.

Lemma slot_ext (w w' : World) :
  timers w' = timers w -> effTimeout w' = effTimeout w -> slot w -> slot w'.
Proof. unfold slot. intros -> ->. trivial. Qed.

Lemma cleanup_timers (w : World) : slot w -> timers (cleanup w) = [].
Proof.
  unfold cleanup. intros [H|[t [H1 H2]]].
  - destruct (effTimeout w); cbn; now rewrite ?H.
  - rewrite H2. cbn. rewrite H1. cbn. now rewrite Nat.eqb_refl.
Qed.

Lemma clearTimeout_slot (h : option nat) (w : World) :
  slot w -> slot (clearTimeout h w).
Proof.
  destruct h as [id|]; [|trivial]. intros [H|[t [H1 H2]]].
  - left. cbn. now rewrite H.
  - cbn. unfold slot. cbn. rewrite H1. cbn.
    destruct (tm_id t =? id); cbn; [now left|right; now exists t].
Qed.

Lemma call_startScan_frame (cl : Closure) (w : World) :
  timers (call_startScan cl w) = timers w
  /\ effTimeout (call_startScan cl w) = effTimeout w
  /\ effDeps (call_startScan cl w) = effDeps w
  /\ clock (call_startScan cl w) = clock w
  /\ nextTimerId (call_startScan cl w) = nextTimerId w.
Proof.
  unfold call_startScan. destruct (startScan cl (app w)). repeat split.
Qed.

(** A call of [startScan] from a render that was not fetching starts a
    scan. *)
Lemma call_startScan_starts (cl : Closure) (w : World) :
  isFetching (cl_fetchStatus cl) = false ->
  isFetching (fetchStatus (app (call_startScan cl w))) = true
  /\ pending (call_startScan cl w)
     = pending w ++ [mkScan cl [] None (0 <? List.length (cl_holders cl))]
  /\ isLiveUpdate (app (call_startScan cl w)) = isLiveUpdate (app w)
  /\ holders (app (call_startScan cl w)) = holders (app w).
Proof.
  intro H. unfold call_startScan.
  destruct (@startScan_enters cl (app w) H)
    as [st' [Hs [Hf [_ [_ [Hh Hl]]]]]].
  rewrite Hs. cbn. rewrite Hf. repeat split; assumption.
Qed.

Lemma liveUpdateEffect_slot (w : World) :
  timers w = [] -> slot (liveUpdateEffect w).
Proof.
  intro H. unfold liveUpdateEffect, setTimeout_startScan.
  destruct (isLiveUpdate (app w) && negb (isFetching (fetchStatus (app w))));
    [|now left].
  destruct (complete (fetchStatus (app w))).
  - right. cbn. rewrite H. eexists. split; reflexivity.
  - destruct (List.length (holders (app w)) =? 0); [|now left].
    left. cbn. destruct (call_startScan_frame (render (app w)) w) as [-> _].
    exact H.
Qed.

Lemma commit1_slot (w : World) : slot w -> slot (commit1 w).
Proof.
  intro H. unfold commit1. destruct (deps_changed w); [|exact H].
  apply liveUpdateEffect_slot. cbn. now apply cleanup_timers.
Qed.

Lemma commit1_of_settled (w : World) : settled w -> commit1 w = w.
Proof.
  unfold settled, commit1, deps_changed. intros ->.
  now rewrite deps_eqb_refl.
Qed.

Lemma cleanup_app (w : World) : app (cleanup w) = app w.
Proof. apply clearTimeout_app. Qed.

Ltac settled_now :=
  unfold settled; cbn [effDeps app set_effTimeout set_effDeps];
  rewrite ?cleanup_app; reflexivity.

Lemma commit1_fetching (w : World) :
  isFetching (fetchStatus (app w)) = true -> settled (commit1 w).
Proof.
  intro H. unfold commit1, deps_changed.
  destruct (effDeps w) as [d|] eqn:E.
  - destruct (deps_eqb (deps (app w)) d) eqn:Ed; cbn [negb].
    + unfold settled. rewrite E. f_equal. symmetry. now apply deps_eqb_eq.
    + unfold liveUpdateEffect. cbn [app set_effDeps].
      rewrite cleanup_app, H, andb_false_r. unfold settled.
      cbn [effDeps app set_effTimeout set_effDeps]. now rewrite cleanup_app.
  - unfold liveUpdateEffect. cbn [app set_effDeps].
    rewrite cleanup_app, H, andb_false_r. unfold settled.
    cbn [effDeps app set_effTimeout set_effDeps]. now rewrite cleanup_app.
Qed.

Lemma commit1_settles (w : World) :
  settled (commit1 w)
  \/ isFetching (fetchStatus (app (commit1 w))) = true.
Proof.
  unfold commit1.
  destruct (deps_changed w) eqn:Ec.
  - unfold liveUpdateEffect, setTimeout_startScan. cbn [app set_effDeps].
    rewrite cleanup_app.
    destruct (isLiveUpdate (app w)) eqn:El; cbn [andb];
      [|left; settled_now].
    destruct (isFetching (fetchStatus (app w))) eqn:Ef; cbn [negb];
      [left; settled_now|].
    destruct (complete (fetchStatus (app w)));
      [left; settled_now|].
    destruct (List.length (holders (app w)) =? 0);
      [|left; settled_now].
    right. cbn [app set_effTimeout].
    now apply call_startScan_starts.
  - left. unfold deps_changed in Ec. unfold settled.
    destruct (effDeps w) as [d|]; [|discriminate].
    apply negb_false_iff, deps_eqb_eq in Ec. now subst.
Qed.

Lemma commit_inv (w : World) : slot w -> slot (commit w) /\ settled (commit w).
Proof.
  intro H. unfold commit. split; [now do 2 apply commit1_slot|].
  destruct (commit1_settles w) as [Hs|Hf].
  - now rewrite (commit1_of_settled Hs).
  - now apply commit1_fetching.
Qed.

Lemma run_timer_inv (t : Timer) (w : World) :
  slot w -> slot (run_timer t w) /\ settled (run_timer t w).
Proof.
  intro H. unfold run_timer. apply commit_inv.
  destruct (call_startScan_frame (tm_closure t)
              (clearTimeout (Some (tm_id t)) w)) as [H1 [H2 _]].
  eapply slot_ext; [exact H1 | exact H2 |]. now apply clearTimeout_slot.
Qed.

Lemma fire_inv (fuel : nat) (w : World) :
  slot w /\ settled w -> slot (fire fuel w) /\ settled (fire fuel w).
Proof.
  revert w. induction fuel as [|n IH]; intros w H; cbn [fire]; [exact H|].
  destruct (find _ (timers w)) as [t|]; [|exact H].
  apply IH. apply run_timer_inv. apply H.
Qed.

Lemma step_inv (e : Event) (w : World) :
  slot w /\ settled w -> slot (step e w) /\ settled (step e w).
Proof.
  intros [Hs Hd].
  destruct e as [| | | |m|i r|dt]; cbn [step];
    try (apply commit_inv; eapply slot_ext; [| |exact Hs]; reflexivity).
  - apply commit_inv.
    destruct (call_startScan_frame (render (app w)) w) as [H1 [H2 _]].
    eapply slot_ext; [exact H1|exact H2|exact Hs].
  - apply commit_inv. unfold settle.
    destruct (nth_error (pending w) i); [|exact Hs].
    destruct (resume r s (clock w) (app w)).
    eapply slot_ext; [| |exact Hs]; reflexivity.
  - unfold elapse. apply fire_inv. split.
    + eapply slot_ext; [| |exact Hs]; reflexivity.
    + exact Hd.
Qed.

Lemma reachable_inv (w : World) : reachable w -> slot w /\ settled w.
Proof.
  induction 1 as [|e w Hr IH].
  - split; [now left | reflexivity].
  - now apply step_inv.
Qed.

End Scheduler.

Section Cooldown.

Lemma cleanup_frame (w : World) :
  app (cleanup w) = app w /\ pending (cleanup w) = pending w
  /\ clock (cleanup w) = clock w /\ nextTimerId (cleanup w) = nextTimerId w
  /\ effTimeout (cleanup w) = effTimeout w /\ effDeps (cleanup w) = effDeps w.
Proof.
  unfold cleanup, clearTimeout.
  destruct (effTimeout w) eqn:E; cbn; rewrite ?E; repeat split.
Qed.

Lemma effect_idle (w : World) :
  idle (app w) -> liveUpdateEffect w = set_effTimeout None w.
Proof.
  unfold liveUpdateEffect. intros [H|[H1 H2]].
  - now rewrite H.
  - rewrite H1.
    destruct (isLiveUpdate (app w) && negb (isFetching (fetchStatus (app w))));
      [|reflexivity].
    destruct (holders (app w)); [now elim H2 | reflexivity].
Qed.

(** With nothing to arm or start, the commit leaves the state alone and
    the timer table empty. *)
Lemma commit1_idle (w : World) :
  idle (app w) -> slot w -> timers w = [] \/ deps_changed w = true ->
  app (commit1 w) = app w /\ pending (commit1 w) = pending w
  /\ clock (commit1 w) = clock w /\ timers (commit1 w) = []
  /\ settled (commit1 w).
Proof.
  intros Hi Hs Hc. unfold commit1.
  destruct (cleanup_frame w) as [Ha [Hp [Hk _]]].
  destruct (deps_changed w) eqn:Ec.
  - rewrite effect_idle by (cbn [app set_effDeps]; now rewrite Ha).
    cbn [app pending clock timers set_effTimeout set_effDeps].
    rewrite Ha, Hp, Hk, (cleanup_timers Hs). repeat split.
    unfold settled. cbn. now rewrite Ha.
  - destruct Hc as [Hc|Hc]; [|discriminate]. repeat split; [exact Hc|].
    unfold deps_changed in Ec. unfold settled.
    destruct (effDeps w) as [d|]; [|discriminate].
    apply negb_false_iff, deps_eqb_eq in Ec. now subst.
Qed.

Lemma commit_idle (w : World) :
  idle (app w) -> slot w -> timers w = [] \/ deps_changed w = true ->
  app (commit w) = app w /\ pending (commit w) = pending w
  /\ clock (commit w) = clock w /\ timers (commit w) = []
  /\ settled (commit w).
Proof.
  intros Hi Hs Hc. unfold commit.
  destruct (commit1_idle Hi Hs Hc) as [Ha [Hp [Hk [Ht Hd]]]].
  rewrite (commit1_of_settled Hd). repeat split; assumption.
Qed.

Lemma deps_changed_by (w : World) (d : Deps) :
  effDeps w = Some d -> deps (app w) <> d -> deps_changed w = true.
Proof.
  intros H Hn. unfold deps_changed. rewrite H.
  destruct (deps_eqb (deps (app w)) d) eqn:E; [|reflexivity].
  apply deps_eqb_eq in E. contradiction.
Qed.

(** The commit that finds live update on and the last scan complete
    arms the timer, a cooldown from now, and starts nothing. *)
Lemma commit_arms (w : World) :
  slot w -> deps_changed w = true ->
  isLiveUpdate (app w) = true ->
  isFetching (fetchStatus (app w)) = false ->
  complete (fetchStatus (app w)) = true ->
  let t := mkTimer (nextTimerId w) (clock w + COOLDOWN)%N (render (app w)) in
  cooling (commit w) t
  /\ app (commit w) = app w /\ pending (commit w) = pending w
  /\ clock (commit w) = clock w.
Proof.
  intros Hs Hc Hl Hf Hk t.
  destruct (cleanup_frame w) as [Ha [Hp [Hck [Hn _]]]].
  assert (E : commit1 w
              = mkWorld (app w) (pending w) [t] (S (nextTimerId w)) (clock w)
                        (Some (nextTimerId w)) (Some (deps (app w)))).
  { unfold commit1. rewrite Hc. unfold liveUpdateEffect, setTimeout_startScan.
    cbn [app pending timers clock nextTimerId effTimeout effDeps set_effDeps
         set_effTimeout].
    rewrite Ha, Hp, Hck, Hn, Hl, Hf, Hk, (cleanup_timers Hs). reflexivity. }
  assert (S1 : settled (commit1 w)) by (rewrite E; reflexivity).
  unfold commit. rewrite (commit1_of_settled S1), E.
  unfold cooling. cbn. repeat split; assumption.
Qed.

Lemma processResults_frame (raw : list RawHolding) (bg : bool) (cl : Closure)
  (now : N) (st : App) :
  let st' := processResults raw bg cl now st in
  isLiveUpdate st' = isLiveUpdate st
  /\ isFetching (fetchStatus st') = false
  /\ complete (fetchStatus st') = true.
Proof. unfold processResults. destruct bg; repeat split. Qed.

(** A scan that completes while the state is scanning and live update
    is on starts the cooldown. *)
Lemma completion_arms (w : World) (i : nat) (sc : Scan) (b : Batch) :
  slot w -> settled w ->
  nth_error (pending w) i = Some sc ->
  marker_truthy (nextMarker b) = false ->
  isLiveUpdate (app w) = true ->
  isFetching (fetchStatus (app w)) = true ->
  let w' := step (Settle i (Fulfilled b)) w in
  cooling w'
    (mkTimer (nextTimerId w) (clock w + COOLDOWN)%N (render (app w')))
  /\ clock w' = clock w
  /\ pending w' = remove_nth i (pending w).
Proof.
  intros Hs Hd Hn Hb Hl Hf w'. subst w'. cbn [step]. unfold settle.
  rewrite Hn, (@resume_last b sc (clock w) (app w) Hb). cbv zeta.
  set (st0 := if isBackgroundUpdate sc then app w else _).
  set (st' := processResults _ _ _ _ st0).
  destruct (processResults_frame (allLines sc ++ holdersBatch (lines b))
              (isBackgroundUpdate sc) (sc_closure sc) (clock w) st0)
    as [Pl [Pf Pc]]. fold st' in Pl, Pf, Pc.
  assert (Hl0 : isLiveUpdate st0 = true)
    by (subst st0; destruct (isBackgroundUpdate sc); exact Hl).
  set (w1 := mkWorld st' (remove_nth i (pending w)) (timers w) (nextTimerId w)
                     (clock w) (effTimeout w) (effDeps w)).
  assert (Hs1 : slot w1) by (eapply slot_ext; [| |exact Hs]; reflexivity).
  assert (Hc1 : deps_changed w1 = true).
  { apply (@deps_changed_by w1 (deps (app w))); [exact Hd|].
    intro E. apply (f_equal d_isFetching) in E. cbn in E. congruence. }
  destruct (@commit_arms w1 Hs1 Hc1) as [Hcool [Ha [Hp Hk]]];
    cbn [app w1]; try congruence.
  rewrite Ha, Hp, Hk. split; [exact Hcool | split; reflexivity].
Qed.

(** Before the timer is due, the passing of time changes nothing. *)
Lemma cooling_waits (w : World) (t : Timer) (dt : N) :
  cooling w t -> (clock w + dt < tm_due t)%N ->
  step (Elapse dt) w = advance dt w /\ cooling (advance dt w) t.
Proof.
  intros Hc Hlt. split; [|exact Hc].
  destruct Hc as [Ht _]. cbn [step]. unfold elapse. cbv zeta.
  change (timers (advance dt w)) with (timers w). rewrite Ht.
  cbn [List.length fire].
  change (timers (advance dt w)) with (timers w).
  change (clock (advance dt w)) with (clock w + dt)%N. rewrite Ht. cbn [find].
  destruct (N.leb_spec (tm_due t) (clock w + dt)); [lia|reflexivity].
Qed.

(** Once the timer is due, it fires and a scan starts. *)
Lemma cooling_fires (w : World) (t : Timer) (dt : N) :
  cooling w t -> (tm_due t <= clock w + dt)%N ->
  let w' := step (Elapse dt) w in
  isFetching (fetchStatus (app w')) = true
  /\ pending w'
     = pending w ++ [mkScan (tm_closure t) [] None
                            (0 <? List.length (cl_holders (tm_closure t)))]
  /\ timers w' = [].
Proof.
  intros [Ht [He [Hd [Hl [Hf [Hk Hcl]]]]]] Hle w'. subst w'.
  cbn [step]. unfold elapse. cbv zeta.
  change (timers (advance dt w)) with (timers w). rewrite Ht.
  cbn [List.length fire].
  change (timers (advance dt w)) with (timers w).
  change (clock (advance dt w)) with (clock w + dt)%N. rewrite Ht. cbn [find].
  destruct (N.leb_spec (tm_due t) (clock w + dt)); [|lia].
  unfold run_timer.
  set (w1 := clearTimeout (Some (tm_id t)) (advance dt w)).
  assert (T1 : timers w1 = []).
  { subst w1. cbn. rewrite Ht. cbn. now rewrite Nat.eqb_refl. }
  set (w2 := call_startScan (tm_closure t) w1).
  destruct (call_startScan_frame (tm_closure t) w1) as [F1 [F2 _]].
  destruct (@call_startScan_starts (tm_closure t) w1 Hcl) as [G1 [G2 _]].
  fold w2 in F1, F2, G1, G2.
  assert (Hi : idle (app w2)) by (left; rewrite G1; apply andb_false_r).
  assert (Hs2 : slot w2) by (left; congruence).
  assert (T2 : timers w2 = [] \/ deps_changed w2 = true)
    by (left; congruence).
  destruct (commit_idle Hi Hs2 T2) as [Ca [Cp [_ [Ct _]]]].
  rewrite Ca, Cp, Ct, G1, G2. repeat split.
Qed.

(** Switching live update off during the cooldown clears the timer; no
    lapse of time starts a scan afterwards. *)
Lemma cooling_disabled (w : World) (t : Timer) :
  cooling w t ->
  let w' := step ClickLiveUpdate w in
  isLiveUpdate (app w') = false
  /\ timers w' = []
  /\ pending w' = pending w
  /\ fetchStatus (app w') = fetchStatus (app w)
  /\ forall dt : N, step (Elapse dt) w' = advance dt w'.
Proof.
  intros [Ht [He [Hd [Hl [Hf [Hk Hcl]]]]]] w'. subst w'. cbn [step].
  set (w1 := with_app (toggleLiveUpdate (app w)) w).
  assert (Hi : idle (app w1)).
  { left. cbn. now rewrite Hl. }
  assert (Hs1 : slot w1) by (right; exists t; split; assumption).
  assert (Hc1 : deps_changed w1 = true).
  { apply (@deps_changed_by w1 (deps (app w))); [exact Hd|].
    intro E. apply (f_equal d_isLiveUpdate) in E. cbn in E.
    rewrite Hl in E. discriminate. }
  destruct (commit_idle Hi Hs1 (or_intror Hc1)) as [Ca [Cp [_ [Ct _]]]].
  rewrite Ca, Cp, Ct. cbn [app w1 with_app pending].
  split; [cbn; now rewrite Hl|]. repeat split.
  intro dt. cbn [step]. unfold elapse. cbv zeta.
  change (timers (advance dt ?x)) with (timers x).
  now rewrite Ct.
Qed.

(** Switching live update on before any scan has published or completed
    starts a scan at once and arms no timer. *)
Lemma enabling_starts (w : World) :
  slot w -> settled w ->
  isLiveUpdate (app w) = false ->
  isFetching (fetchStatus (app w)) = false ->
  complete (fetchStatus (app w)) = false ->
  holders (app w) = [] ->
  let w' := step ClickLiveUpdate w in
  isFetching (fetchStatus (app w')) = true
  /\ pending w'
     = pending w ++ [mkScan (render (toggleLiveUpdate (app w))) [] None false]
  /\ timers w' = []
  /\ clock w' = clock w.
Proof.
  intros Hs Hd Hl Hf Hk Hh w'. subst w'. cbn [step].
  set (st1 := toggleLiveUpdate (app w)).
  set (w1 := with_app st1 w).
  assert (Hc1 : deps_changed w1 = true).
  { apply (@deps_changed_by w1 (deps (app w))); [exact Hd|].
    intro E. apply (f_equal d_isLiveUpdate) in E. cbn in E.
    rewrite Hl in E. discriminate. }
  destruct (cleanup_frame w1) as [Ha [Hp [Hck [Hn _]]]].
  set (w2 := set_effDeps (deps (app w1)) (cleanup w1)).
  assert (E1 : commit1 w1
               = set_effTimeout None (call_startScan (render st1) w2)).
  { unfold commit1. rewrite Hc1. fold w2. unfold liveUpdateEffect.
    assert (Ea : app w2 = st1) by (subst w2; cbn; exact Ha).
    rewrite Ea. subst st1. cbn [isLiveUpdate fetchStatus holders
      toggleLiveUpdate setIsLiveUpdate].
    now rewrite Hl, Hf, Hk, Hh. }
  assert (Hcl : isFetching (cl_fetchStatus (render st1)) = false) by exact Hf.
  destruct (@call_startScan_starts (render st1) w2 Hcl) as [G1 [G2 _]].
  destruct (call_startScan_frame (render st1) w2) as [F1 [F2 [_ [F4 _]]]].
  set (w3 := set_effTimeout None (call_startScan (render st1) w2)) in *.
  assert (T3 : timers w3 = []).
  { subst w3. cbn [timers set_effTimeout]. rewrite F1. subst w2.
    cbn [timers set_effDeps]. apply cleanup_timers.
    eapply slot_ext; [| |exact Hs]; reflexivity. }
  assert (Hi : idle (app w3)).
  { left. subst w3. cbn [app set_effTimeout]. rewrite G1. apply andb_false_r. }
  assert (Hs3 : slot w3) by now left.
  destruct (commit1_idle Hi Hs3 (or_introl T3)) as [Ca [Cp [Cc [Ct _]]]].
  unfold commit. rewrite E1, Ca, Cp, Ct, Cc.
  subst w3. cbn [app pending clock set_effTimeout]. rewrite G1, G2, F4.
  subst w2. cbn [pending clock set_effDeps]. rewrite Hp, Hck.
  change (cl_holders (render st1)) with (holders (app w)). rewrite Hh.
  repeat split.
Qed.

End Cooldown.

Lemma cooling_waits_many (dts : list N) (w : World) (t : Timer) :
  cooling w t ->
  (clock w + fold_right N.add 0%N dts < tm_due t)%N ->
  run (map Elapse dts) w = advance (fold_right N.add 0%N dts) w.
Proof.
  revert w. induction dts as [|dt dts IH]; intros w Hc Hlt;
    cbn [map run fold_left fold_right] in *.
  - unfold advance. destruct w. cbn. f_equal. lia.
  - destruct (@cooling_waits w t dt Hc) as [E Hc']; [lia|].
    rewrite E. fold (run (map Elapse dts) (advance dt w)).
    rewrite (IH (advance dt w) Hc') by (cbn [clock advance]; lia).
    unfold advance. cbn. f_equal. lia.
Qed.

Example live_update_cycle :
  let w := run LiveFixture.first_cycle initialWorld in
  map tm_due (timers w) = [10000%N]
  /\ isFetching (fetchStatus (app w)) = false
  /\ isFetching (fetchStatus (app (step (Elapse 9999) w))) = false
  /\ isFetching (fetchStatus (app (run [Elapse 9999; Elapse 1] w))) = true
  /\ isFetching (fetchStatus (app (run [ClickLiveUpdate; Elapse 20000] w)))
     = false
  /\ timers (run [Elapse 9999; Elapse 1] w) = [].
Proof. vm_compute. repeat split. Qed.

Lemma reachable_run (es : list Event) (w : World) :
  reachable w -> reachable (run es w).
Proof.
  revert w. induction es as [|e es IH]; intros w H; [exact H|].
  apply IH. now constructor.
Qed.

(** Switching live update on when the last scan is complete starts the
    cooldown. *)
Lemma enabling_arms (w : World) :
  slot w -> settled w ->
  isLiveUpdate (app w) = false ->
  isFetching (fetchStatus (app w)) = false ->
  complete (fetchStatus (app w)) = true ->
  let w' := step ClickLiveUpdate w in
  cooling w'
    (mkTimer (nextTimerId w) (clock w + COOLDOWN)%N (render (app w')))
  /\ clock w' = clock w
  /\ pending w' = pending w.
Proof.
  intros Hs Hd Hl Hf Hk w'. subst w'. cbn [step].
  set (w1 := with_app (toggleLiveUpdate (app w)) w).
  assert (Hs1 : slot w1) by (eapply slot_ext; [| |exact Hs]; reflexivity).
  assert (Hc1 : deps_changed w1 = true).
  { apply (@deps_changed_by w1 (deps (app w))); [exact Hd|].
    intro E. apply (f_equal d_isLiveUpdate) in E. cbn in E.
    rewrite Hl in E. discriminate. }
  destruct (@commit_arms w1 Hs1 Hc1) as [Hcool [Ha [Hp Hck]]];
    [cbn; now rewrite Hl | exact Hf | exact Hk |].
  rewrite Ha, Hp, Hck. split; [exact Hcool | split; reflexivity].
Qed.

(** C9: with live update on and no scan running, the cooldown starts
    when a scan completes, or when live update is switched on after a
    completed scan: one timer is armed, due the 10-second cooldown
    later, and no scan starts.  During the cooldown the passing of
    less time than remains changes nothing; when the timer is due it
    fires and a scan starts; switching live update off clears the
    timer, and then no lapse of time starts a scan.  Switching live
    update on while no scan has completed and no holder is published
    starts a scan at once, with no timer.  In every reachable state at
    most one timer is pending. *)
Theorem C9_live_update :
  (forall (w : World) (i : nat) (sc : Scan) (b : Batch),
      reachable w ->
      nth_error (pending w) i = Some sc ->
      marker_truthy (nextMarker b) = false ->
      isLiveUpdate (app w) = true ->
      isFetching (fetchStatus (app w)) = true ->
      let w' := step (Settle i (Fulfilled b)) w in
      cooling w'
        (mkTimer (nextTimerId w) (clock w' + COOLDOWN)%N (render (app w')))
      /\ pending w' = remove_nth i (pending w))
  /\ (forall w : World,
        reachable w ->
        isLiveUpdate (app w) = false ->
        isFetching (fetchStatus (app w)) = false ->
        complete (fetchStatus (app w)) = true ->
        let w' := step ClickLiveUpdate w in
        cooling w'
          (mkTimer (nextTimerId w) (clock w' + COOLDOWN)%N (render (app w')))
        /\ pending w' = pending w)
  /\ (forall (w : World) (t : Timer),
        cooling w t ->
        timers w = [t]
        /\ (forall dts : list N,
              (clock w + fold_right N.add 0%N dts < tm_due t)%N ->
              run (map Elapse dts) w = advance (fold_right N.add 0%N dts) w)
        /\ (forall dt : N,
              (tm_due t <= clock w + dt)%N ->
              isFetching (fetchStatus (app (step (Elapse dt) w))) = true
              /\ pending (step (Elapse dt) w)
                 = pending w
                   ++ [mkScan (tm_closure t) [] None
                         (0 <? List.length (cl_holders (tm_closure t)))]
              /\ timers (step (Elapse dt) w) = [])
        /\ (let w' := step ClickLiveUpdate w in
            isLiveUpdate (app w') = false
            /\ timers w' = []
            /\ pending w' = pending w
            /\ fetchStatus (app w') = fetchStatus (app w)
            /\ forall dt : N, step (Elapse dt) w' = advance dt w'))
  /\ (forall w : World,
        reachable w ->
        isLiveUpdate (app w) = false ->
        isFetching (fetchStatus (app w)) = false ->
        complete (fetchStatus (app w)) = false ->
        holders (app w) = [] ->
        let w' := step ClickLiveUpdate w in
        isFetching (fetchStatus (app w')) = true
        /\ pending w'
           = pending w
             ++ [mkScan (render (toggleLiveUpdate (app w))) [] None false]
        /\ timers w' = []
        /\ clock w' = clock w)
  /\ (forall w : World, reachable w -> List.length (timers w) <= 1)
  /\ COOLDOWN = 10000%N.
Proof.
  split; [|split; [|split; [|split; [|split; [|reflexivity]]]]].
  - intros w i sc b Hr Hn Hb Hl Hf w'.
    destruct (reachable_inv Hr) as [Hs Hd].
    destruct (@completion_arms w i sc b Hs Hd Hn Hb Hl Hf) as [Hc [Hk Hp]].
    fold w' in Hc, Hk, Hp. rewrite Hk. split; assumption.
  - intros w Hr Hl Hf Hk w'.
    destruct (reachable_inv Hr) as [Hs Hd].
    destruct (@enabling_arms w Hs Hd Hl Hf Hk) as [Hc [Hck Hp]].
    fold w' in Hc, Hck, Hp. rewrite Hck. split; assumption.
  - intros w t Hc. split; [apply Hc|]. split; [|split].
    + intros dts Hlt. now apply (cooling_waits_many dts Hc).
    + intros dt Hle. now apply cooling_fires.
    + now apply (@cooling_disabled w t).
  - intros w Hr. destruct (reachable_inv Hr) as [Hs Hd].
    now apply enabling_starts.
  - intros w Hr. destruct (reachable_inv Hr) as [[H|[t [H _]]] _];
      rewrite H; cbn; lia.
Qed.

Lemma C9_live_update_witness :
  let w := run [ClickLiveUpdate; Settle 0 (Fulfilled Fixture.page1)]
               initialWorld in
  let w' := step (Settle 0 (Fulfilled Fixture.page2)) w in
  let t := mkTimer (nextTimerId w) (clock w' + COOLDOWN)%N (render (app w')) in
  reachable w
  /\ isLiveUpdate (app w) = true
  /\ isFetching (fetchStatus (app w)) = true
  /\ cooling w' t
  /\ run (map Elapse [4000; 5999]%N) w' = advance 9999 w'
  /\ isFetching (fetchStatus (app (step (Elapse COOLDOWN) w'))) = true
  /\ timers (step ClickLiveUpdate w') = []
  /\ isFetching (fetchStatus (app (step ClickLiveUpdate initialWorld))) = true.
Proof.
  intros w w' t.
  assert (Hr : reachable w) by (apply reachable_run; constructor).
  destruct C9_live_update as [Hcomp [_ [Hcool [Hnow _]]]].
  destruct (Hcomp w 0 _ Fixture.page2 Hr eq_refl eq_refl eq_refl eq_refl)
    as [Hc _].
  destruct (Hcool w' t Hc) as [_ [Hwait [Hfire [_ [Hoff _]]]]].
  destruct (Hnow initialWorld reach_init eq_refl eq_refl eq_refl eq_refl)
    as [Hstart _].
  split; [exact Hr|]. split; [reflexivity|]. split; [reflexivity|].
  split; [exact Hc|].
  split; [apply (Hwait [4000; 5999]%N); reflexivity|].
  split; [apply Hfire; apply N.le_refl|].
  split; [exact Hoff | exact Hstart].
Defined.

(* ================================================================= *)
(** * Further properties of the component *)

(** ** A scan against a server *)

Lemma feed_complete (pages : list Batch) (b : Batch) (sc : Scan) (now : N)
  (st : App) :
  Forall continuing pages -> marker_truthy (nextMarker b) = false ->
  aborted st = false ->
  exists st',
    feed (map Fulfilled (pages ++ [b])) sc now st = (st', Completed)
    /\ holders st'
       = aggregate (allLines sc ++ gathered (pages ++ [b]))
           (cl_excludeIssuer (sc_closure sc)) (cl_metrics (sc_closure sc))
    /\ fetchStatus st' = completeStatus (List.length (holders st')).
Proof.
  intros Hp Hb Ha.
  destruct (@feed_continue pages sc now st Hp Ha) as [st1 [Hf _]].
  rewrite map_app. erewrite feed_app by exact Hf. cbn [map feed].
  rewrite (@resume_last b _ now st1 Hb). cbv zeta. eexists.
  split; [reflexivity|].
  rewrite processResults_holders.
  cbn [allLines sc_closure isBackgroundUpdate].
  unfold gathered. rewrite map_app, concat_app. cbn [map List.concat].
  rewrite app_nil_r, <- app_assoc. split; [reflexivity|].
  unfold processResults. destruct (isBackgroundUpdate sc); reflexivity.
Qed.

Lemma serves_split (server : option Marker -> Settled) (pages : list Batch) :
  forall m, serves server m pages ->
  exists init last,
    pages = init ++ [last] /\ Forall continuing init
    /\ marker_truthy (nextMarker last) = false.
Proof.
  induction pages as [|b rest IH]; intros m H; [now elim H|].
  destruct rest as [|b' rest].
  - exists [], b. destruct H as [_ H]. repeat split; [constructor | exact H].
  - destruct H as [_ [Hc Hs]].
    destruct (IH _ Hs) as [init [last [E [Hi Hl]]]].
    exists (b :: init), last. rewrite E. repeat split; [|exact Hl].
    now constructor.
Qed.

(** Against such a server the loop asks for the pages in order, once
    each. *)
Lemma drive_feed (server : option Marker -> Settled) (pages : list Batch)
  (now : N) :
  forall (fuel : nat) (sc : Scan) (st : App),
    serves server (marker sc) pages -> aborted st = false ->
    drive server fuel sc now st
    = feed (map Fulfilled (firstn fuel pages)) sc now st.
Proof.
  induction pages as [|b rest IH]; intros fuel sc st Hs Ha; [now elim Hs|].
  destruct fuel as [|fuel]; [reflexivity|].
  cbn [drive firstn map feed].
  destruct rest as [|b' rest].
  - destruct Hs as [Hs Hb]. rewrite Hs, (@resume_last b sc now st Hb).
    reflexivity.
  - destruct Hs as [Hs [Hc Hr]].
    rewrite Hs, (@resume_continue b sc now st Hc Ha). cbv zeta.
    apply IH; [exact Hr|]. destruct (isBackgroundUpdate sc); exact Ha.
Qed.

(** X1: against a server that serves a finite chain of pages, a scan
    that is not cancelled completes as soon as it is given as many
    requests as there are pages: it publishes the aggregation of the
    holdings of all the pages, in page order, with the complete status;
    given fewer requests it is still suspended, has gathered the pages
    requested so far and has published nothing. *)
Theorem X1_scan_of_a_served_chain :
  forall (server : option Marker -> Settled) (pages : list Batch)
         (fuel : nat) (sc : Scan) (now : N) (st : App),
    serves server (marker sc) pages -> aborted st = false ->
    (List.length pages <= fuel ->
     exists st',
       drive server fuel sc now st = (st', Completed)
       /\ holders st'
          = aggregate (allLines sc ++ gathered pages)
              (cl_excludeIssuer (sc_closure sc)) (cl_metrics (sc_closure sc))
       /\ fetchStatus st' = completeStatus (List.length (holders st')))
    /\ (fuel < List.length pages ->
        exists st' sc',
          drive server fuel sc now st = (st', Suspended sc')
          /\ allLines sc' = allLines sc ++ gathered (firstn fuel pages)
          /\ holders st' = holders st).
Proof.
  intros server pages fuel sc now st Hs Ha.
  rewrite (drive_feed server pages now fuel sc st Hs Ha).
  destruct (serves_split server pages _ Hs) as [init [last [E [Hi Hl]]]].
  split.
  - intro Hle. rewrite firstn_all2 by exact Hle. subst pages.
    now apply feed_complete.
  - intro Hlt.
    assert (Hf : firstn fuel pages = firstn fuel init).
    { subst pages. rewrite length_app in Hlt. cbn in Hlt.
      rewrite firstn_app.
      replace (fuel - List.length init) with 0 by lia.
      cbn. now rewrite app_nil_r. }
    rewrite Hf.
    assert (Hc : Forall continuing (firstn fuel init)).
    { apply Forall_forall. intros x Hx. rewrite Forall_forall in Hi.
      apply Hi. rewrite <- (firstn_skipn fuel init). apply in_or_app.
      now left. }
    destruct (@feed_continue (firstn fuel init) sc now st Hc Ha)
      as [st' [Hfd [Hh _]]].
    exists st'. eexists. split; [exact Hfd|]. split; [reflexivity|exact Hh].
Qed.

Lemma X1_scan_of_a_served_chain_witness :
  let server := fun m : option Marker =>
                  match m with
                  | None => Fulfilled Fixture.page1
                  | Some _ => Fulfilled Fixture.page2
                  end in
  let sc := mkScan (render initialApp) [] None false in
  serves server (marker sc) [Fixture.page1; Fixture.page2]
  /\ aborted initialApp = false
  /\ (exists st',
        drive server 2 sc 0%N initialApp = (st', Completed)
        /\ holders st'
           = aggregate (allLines sc
                        ++ gathered [Fixture.page1; Fixture.page2])
               (cl_excludeIssuer (sc_closure sc)) (cl_metrics (sc_closure sc))
        /\ fetchStatus st' = completeStatus (List.length (holders st')))
  /\ (exists st' sc',
        drive server 1 sc 0%N initialApp = (st', Suspended sc')
        /\ allLines sc'
           = allLines sc ++ gathered (firstn 1 [Fixture.page1; Fixture.page2])
        /\ holders st' = holders initialApp).
Proof.
  intros server sc.
  assert (Hs : serves server (marker sc) [Fixture.page1; Fixture.page2])
    by (repeat split).
  assert (Ha : aborted initialApp = false) by reflexivity.
  split; [exact Hs|]. split; [exact Ha|]. split.
  - apply (proj1 (@X1_scan_of_a_served_chain server _ 2 sc 0%N initialApp
                    Hs Ha)).
    apply Nat.le_refl.
  - apply (proj2 (@X1_scan_of_a_served_chain server _ 1 sc 0%N initialApp
                    Hs Ha)).
    apply Nat.lt_succ_diag_r.
Defined.

(** X2: the loop has no bound on the number of pages.  Against a server
    that answers every request with a page that announces a further
    page, a scan that is not cancelled is still suspended after any
    number of requests, and the published list and the complete flag
    are as they were. *)
Theorem X2_scan_never_ends_on_endless_markers :
  forall (server : option Marker -> Settled),
    (forall m, exists b, server m = Fulfilled b /\ continuing b) ->
    forall (fuel : nat) (sc : Scan) (now : N) (st : App),
      aborted st = false ->
      exists st' sc',
        drive server fuel sc now st = (st', Suspended sc')
        /\ holders st' = holders st
        /\ complete (fetchStatus st') = complete (fetchStatus st)
        /\ isFetching (fetchStatus st') = isFetching (fetchStatus st).
Proof.
  intros server Hsrv fuel. induction fuel as [|fuel IH]; intros sc now st Ha.
  - exists st, sc. repeat split.
  - cbn [drive]. destruct (Hsrv (marker sc)) as [b [Hb Hc]].
    rewrite Hb, (@resume_continue b sc now st Hc Ha). cbv zeta.
    set (st1 := if isBackgroundUpdate sc then st else _).
    assert (Ha1 : aborted st1 = false)
      by (subst st1; destruct (isBackgroundUpdate sc); exact Ha).
    destruct (IH (mkScan (sc_closure sc)
                         (allLines sc ++ holdersBatch (lines b))
                         (nextMarker b) (isBackgroundUpdate sc)) now st1 Ha1)
      as [st' [sc' [Hd [Hh [Hk Hf]]]]].
    exists st', sc'. split; [exact Hd|].
    rewrite Hh, Hk, Hf. subst st1.
    destruct (isBackgroundUpdate sc); repeat split.
Qed.

Lemma X2_scan_never_ends_on_endless_markers_witness :
  let server := fun _ : option Marker => Fulfilled Fixture.page1 in
  (forall m, exists b, server m = Fulfilled b /\ continuing b)
  /\ exists st' sc',
       drive server 50 (mkScan (render initialApp) [] None false) 0%N
             initialApp = (st', Suspended sc')
       /\ holders st' = holders initialApp
       /\ complete (fetchStatus st') = complete (fetchStatus initialApp)
       /\ isFetching (fetchStatus st') = isFetching (fetchStatus initialApp).
Proof.
  intro server.
  assert (H : forall m, exists b, server m = Fulfilled b /\ continuing b)
    by (intro m; exists Fixture.page1; split; reflexivity).
  split; [exact H|].
  exact (@X2_scan_never_ends_on_endless_markers server H 50 _ 0%N initialApp
           eq_refl).
Defined.

(* ================================================================= *)
(** ** Every pending timer belongs to a running cooldown *)

Section TimersCooling.

(** What the effect does depends on the state in one of three ways. *)
Lemma effect_cases (st : App) :
  (isLiveUpdate st = true /\ isFetching (fetchStatus st) = false
   /\ complete (fetchStatus st) = true)
  \/ (isLiveUpdate st = true /\ isFetching (fetchStatus st) = false
      /\ complete (fetchStatus st) = false /\ holders st = [])
  \/ idle st.
Proof.
  unfold idle.
  destruct (isLiveUpdate st); [|right; right; now left].
  destruct (isFetching (fetchStatus st)); [right; right; now left|].
  destruct (complete (fetchStatus st)); [now left|].
  destruct (holders st) eqn:E; [right; left; auto|].
  right; right; right. split; [reflexivity | discriminate].
Qed.

Lemma call_startScan_app (cl : Closure) (w : World) :
  app (call_startScan cl w) = fst (startScan cl (app w)).
Proof. unfold call_startScan. now destruct (startScan cl (app w)). Qed.

(** The commit that finds live update on, no scan running or completed
    and nothing published starts a scan. *)
Lemma commit_starts (w : World) :
  slot w -> deps_changed w = true ->
  isLiveUpdate (app w) = true ->
  isFetching (fetchStatus (app w)) = false ->
  complete (fetchStatus (app w)) = false ->
  holders (app w) = [] ->
  app (commit w) = fst (startScan (render (app w)) (app w))
  /\ pending (commit w)
     = pending w ++ [mkScan (render (app w)) [] None false]
  /\ timers (commit w) = []
  /\ clock (commit w) = clock w
  /\ settled (commit w).
Proof.
  intros Hs Hc Hl Hf Hk Hh.
  destruct (cleanup_frame w) as [Ha [Hp [Hck _]]].
  set (w2 := set_effDeps (deps (app w)) (cleanup w)).
  assert (Ea : app w2 = app w) by exact Ha.
  assert (E1 : commit1 w
               = set_effTimeout None (call_startScan (render (app w)) w2)).
  { unfold commit1. rewrite Hc. fold w2. unfold liveUpdateEffect.
    rewrite Ea, Hl, Hf, Hk, Hh. reflexivity. }
  assert (Hcl : isFetching (cl_fetchStatus (render (app w))) = false)
    by exact Hf.
  destruct (@call_startScan_starts (render (app w)) w2 Hcl) as [G1 [G2 _]].
  destruct (call_startScan_frame (render (app w)) w2) as [F1 [_ [_ [F4 _]]]].
  pose proof (call_startScan_app (render (app w)) w2) as G0.
  set (w3 := set_effTimeout None (call_startScan (render (app w)) w2)) in *.
  assert (T3 : timers w3 = []).
  { subst w3. cbn [timers set_effTimeout]. rewrite F1. subst w2.
    cbn [timers set_effDeps]. now apply cleanup_timers. }
  assert (Hi : idle (app w3)).
  { left. subst w3. cbn [app set_effTimeout]. rewrite G1. apply andb_false_r. }
  assert (Hs3 : slot w3) by now left.
  destruct (commit1_idle Hi Hs3 (or_introl T3)) as [Ca [Cp [Cc [Ct Cd]]]].
  unfold commit. rewrite E1, Ca, Cp, Ct, Cc.
  subst w3. cbn [app pending clock set_effTimeout]. rewrite G0, G2, F4, Ea.
  subst w2. cbn [pending clock set_effDeps]. rewrite Hp, Hck.
  change (cl_holders (render (app w))) with (holders (app w)). rewrite Hh.
  repeat split. exact Cd.
Qed.

Lemma cooling_slot (w : World) (t : Timer) : cooling w t -> slot w.
Proof. intros [H1 [H2 _]]. right. now exists t. Qed.

Lemma timers_cooling_slot (w : World) : timers_cooling w -> slot w.
Proof. intros [H|[t H]]; [now left | now apply (cooling_slot H)]. Qed.

(** A handler that leaves the dependency values alone leaves the
    cooldown running. *)
Lemma cooling_same_deps (w w' : World) (t : Timer) :
  cooling w t ->
  timers w' = timers w -> effTimeout w' = effTimeout w ->
  effDeps w' = effDeps w -> deps (app w') = deps (app w) ->
  cooling w' t.
Proof.
  intros [H1 [H2 [H3 [H4 [H5 [H6 H7]]]]]] Et Ee Ed Ea.
  unfold cooling, settled in *.
  pose proof (f_equal d_isLiveUpdate Ea) as E1.
  pose proof (f_equal d_isFetching Ea) as E2.
  pose proof (f_equal d_complete Ea) as E3. cbn in E1, E2, E3.
  repeat split; congruence.
Qed.

Lemma deps_unchanged (w : World) (d : Deps) :
  effDeps w = Some d -> deps_changed w = false -> deps (app w) = d.
Proof.
  unfold deps_changed. intros -> H.
  apply negb_false_iff in H. now apply deps_eqb_eq.
Qed.

(** After a handler that touched neither the timer table nor the
    effect's record, the commit restores the invariant. *)
Lemma handler_commit (w w1 : World) :
  settled w -> timers_cooling w ->
  timers w1 = timers w -> effTimeout w1 = effTimeout w ->
  effDeps w1 = effDeps w ->
  settled (commit w1) /\ timers_cooling (commit w1).
Proof.
  intros Hd Hc Et Ee Ed.
  assert (Hs1 : slot w1).
  { eapply slot_ext; [exact Et | exact Ee |]. now apply timers_cooling_slot. }
  split; [now apply commit_inv|].
  destruct (deps_changed w1) eqn:Ec.
  - destruct (effect_cases (app w1)) as [[Hl [Hf Hk]]|[[Hl [Hf [Hk Hh]]]|Hi]].
    + right. eexists. exact (proj1 (@commit_arms w1 Hs1 Ec Hl Hf Hk)).
    + left. exact (proj1 (proj2 (proj2 (@commit_starts w1 Hs1 Ec Hl Hf Hk Hh)))).
    + left. exact (proj1 (proj2 (proj2 (proj2
                     (commit_idle Hi Hs1 (or_intror Ec)))))).
  - assert (Hset : settled w1).
    { unfold settled. rewrite Ed, Hd. f_equal. symmetry.
      apply (@deps_unchanged w1); [now rewrite Ed|exact Ec]. }
    unfold commit. rewrite !(commit1_of_settled Hset).
    destruct Hc as [Hc|[t Hc]]; [left; congruence|].
    right. exists t. apply (@cooling_same_deps w w1 t Hc Et Ee Ed).
    unfold settled in Hset, Hd. congruence.
Qed.

Lemma elapse_cases (dt : N) (w : World) :
  settled w -> timers_cooling w ->
  elapse dt w = advance dt w
  \/ exists t,
       cooling w t /\ (tm_due t <= clock w + dt)%N
       /\ elapse dt w = run_timer t (advance dt w).
Proof.
  intros Hd [Ht|[t Hc]].
  - left. unfold elapse. cbv zeta.
    change (timers (advance dt w)) with (timers w). now rewrite Ht.
  - pose proof Hc as [Ht _]. unfold elapse. cbv zeta.
    change (timers (advance dt w)) with (timers w). rewrite Ht.
    cbn [List.length fire].
    change (timers (advance dt w)) with (timers w).
    change (clock (advance dt w)) with (clock w + dt)%N. rewrite Ht.
    cbn [find].
    destruct (N.leb_spec (tm_due t) (clock w + dt)); [|now left].
    right. exists t. split; [exact Hc | split; [assumption | reflexivity]].
Qed.

Lemma run_timer_cooling (dt : N) (w : World) (t : Timer) :
  cooling w t ->
  let w' := run_timer t (advance dt w) in
  app w' = fst (startScan (tm_closure t) (app w))
  /\ pending w'
     = pending w ++ [mkScan (tm_closure t) [] None
                            (0 <? List.length (cl_holders (tm_closure t)))]
  /\ timers w' = [] /\ settled w'.
Proof.
  intros [Ht [He [Hd [Hl [Hf [Hk Hcl]]]]]] w'. subst w'. unfold run_timer.
  set (w1 := clearTimeout (Some (tm_id t)) (advance dt w)).
  assert (T1 : timers w1 = []).
  { subst w1. cbn. rewrite Ht. cbn. now rewrite Nat.eqb_refl. }
  set (w2 := call_startScan (tm_closure t) w1).
  destruct (call_startScan_frame (tm_closure t) w1) as [F1 _].
  destruct (@call_startScan_starts (tm_closure t) w1 Hcl) as [G1 [G2 _]].
  pose proof (call_startScan_app (tm_closure t) w1) as G0.
  fold w2 in F1, G0, G1, G2.
  assert (Hi : idle (app w2)) by (left; rewrite G1; apply andb_false_r).
  assert (Hs2 : slot w2) by (left; congruence).
  assert (T2 : timers w2 = [] \/ deps_changed w2 = true)
    by (left; congruence).
  destruct (commit_idle Hi Hs2 T2) as [Ca [Cp [_ [Ct Cd]]]].
  rewrite Ca, Cp, Ct, G0, G2. repeat split. exact Cd.
Qed.

Lemma step_timers_cooling (e : Event) (w : World) :
  settled w /\ timers_cooling w ->
  settled (step e w) /\ timers_cooling (step e w).
Proof.
  intros [Hd Hc].
  destruct e as [| | | |m|i r|dt]; cbn [step];
    try (apply (@handler_commit w _ Hd Hc); reflexivity).
  - destruct (call_startScan_frame (render (app w)) w) as [H1 [H2 [H3 _]]].
    now apply (@handler_commit w _ Hd Hc).
  - apply (@handler_commit w _ Hd Hc); unfold settle;
      destruct (nth_error (pending w) i); try reflexivity;
      destruct (resume r s (clock w) (app w)); reflexivity.
  - destruct (elapse_cases dt Hd Hc) as [E|[t [Hct [_ E]]]]; rewrite E.
    + split; [exact Hd|]. destruct Hc as [Hc|[t Hc]]; [now left|].
      right. exists t. exact Hc.
    + destruct (@run_timer_cooling dt w t Hct) as [_ [_ [Ht Hs]]].
      split; [exact Hs | now left].
Qed.

Lemma reachable_timers_cooling (w : World) :
  reachable w -> settled w /\ timers_cooling w.
Proof.
  induction 1 as [|e w Hr IH].
  - split; [reflexivity | now left].
  - now apply step_timers_cooling.
Qed.

End TimersCooling.

(* ================================================================= *)
(** ** Start, failure and stop *)

Lemma world_eta (w : World) :
  mkWorld (app w) (pending w) (timers w) (nextTimerId w) (clock w)
          (effTimeout w) (effDeps w) = w.
Proof. now destruct w. Qed.

Lemma commit_of_settled (w : World) : settled w -> commit w = w.
Proof. intro H. unfold commit. now rewrite !(commit1_of_settled H). Qed.

(** With live update off, a commit arms and starts nothing. *)
Lemma commit_live_off (w w1 : World) :
  settled w -> timers_cooling w ->
  timers w1 = timers w -> effTimeout w1 = effTimeout w ->
  effDeps w1 = effDeps w ->
  isLiveUpdate (app w1) = false ->
  app (commit w1) = app w1 /\ pending (commit w1) = pending w1
  /\ clock (commit w1) = clock w1 /\ timers (commit w1) = [].
Proof.
  intros Hd Hc Et Ee Ed Hl.
  assert (Hs1 : slot w1).
  { eapply slot_ext; [exact Et | exact Ee |]. now apply timers_cooling_slot. }
  assert (Hi : idle (app w1)) by (left; now rewrite Hl).
  assert (H : timers w1 = [] \/ deps_changed w1 = true).
  { destruct Hc as [Hc|[t [_ [_ [_ [Hlw _]]]]]]; [left; congruence|].
    right. apply (@deps_changed_by w1 (deps (app w)));
      [now rewrite Ed|].
    intro E. apply (f_equal d_isLiveUpdate) in E. cbn in E. congruence. }
  destruct (commit_idle Hi Hs1 H) as [Ca [Cp [Ck [Ct _]]]].
  repeat split; assumption.
Qed.

Lemma elapse_no_timer (dt : N) (w : World) :
  timers w = [] -> step (Elapse dt) w = advance dt w.
Proof.
  intro H. cbn [step]. unfold elapse. cbv zeta.
  change (timers (advance dt w)) with (timers w). now rewrite H.
Qed.

(** X3: while a scan is running, asking for a scan changes nothing at
    all: no state is written and no second invocation is started. *)
Theorem X3_start_while_scanning_is_noop :
  forall w : World,
    reachable w -> isFetching (fetchStatus (app w)) = true ->
    step ClickStart w = w.
Proof.
  intros w Hr Hf. destruct (reachable_inv Hr) as [_ Hd]. cbn [step].
  assert (E : call_startScan (render (app w)) w = w).
  { unfold call_startScan, startScan. cbn [cl_fetchStatus render].
    rewrite Hf. apply world_eta. }
  rewrite E. now apply commit_of_settled.
Qed.

Lemma X3_start_while_scanning_is_noop_witness :
  let w := run [ClickStart; Settle 0 (Fulfilled Fixture.page1)] initialWorld in
  reachable w /\ isFetching (fetchStatus (app w)) = true
  /\ step ClickStart w = w.
Proof.
  intro w.
  assert (Hr : reachable w) by (apply reachable_run; constructor).
  split; [exact Hr|]. split; [reflexivity|].
  exact (@X3_start_while_scanning_is_noop w Hr eq_refl).
Defined.

(** X4: when the page request of a running scan fails, the published
    list and its time stamp stay, the status becomes the error status
    with the failure message as detail (count and complete flag as they
    were), the invocation is gone, live update is switched off and no
    timer is left: no lapse of time starts another scan. *)
Theorem X4_failed_fetch_stops_everything :
  forall (w : World) (i : nat) (sc : Scan) (message : string),
    reachable w -> nth_error (pending w) i = Some sc ->
    let w' := step (Settle i (Rejected message)) w in
    fetchStatus (app w') = erroredStatus message (fetchStatus (app w))
    /\ holders (app w') = holders (app w)
    /\ lastUpdated (app w') = lastUpdated (app w)
    /\ isLiveUpdate (app w') = false
    /\ pending w' = remove_nth i (pending w)
    /\ timers w' = []
    /\ forall dt : N, step (Elapse dt) w' = advance dt w'.
Proof.
  intros w i sc message Hr Hn w'. subst w'.
  destruct (reachable_timers_cooling Hr) as [Hd Hc].
  cbn [step]. unfold settle. rewrite Hn. cbn [resume].
  set (w1 := mkWorld _ _ _ _ _ _ _).
  destruct (@commit_live_off w w1 Hd Hc eq_refl eq_refl eq_refl eq_refl)
    as [Ca [Cp [_ Ct]]].
  rewrite Ca, Cp, Ct. repeat split.
  intro dt. now apply elapse_no_timer.
Qed.

Lemma X4_failed_fetch_stops_everything_witness :
  let w := run [ClickLiveUpdate; Settle 0 (Fulfilled Fixture.page1)]
               initialWorld in
  let w' := step (Settle 0 (Rejected "timeout")) w in
  reachable w
  /\ isLiveUpdate (app w) = true
  /\ fetchStatus (app w') = erroredStatus "timeout" (fetchStatus (app w))
  /\ isLiveUpdate (app w') = false
  /\ pending w' = []
  /\ timers w' = []
  /\ step (Elapse 60000) w' = advance 60000 w'.
Proof.
  intros w w'.
  assert (Hr : reachable w) by (apply reachable_run; constructor).
  destruct (@X4_failed_fetch_stops_everything w 0 _ "timeout" Hr eq_refl)
    as [H1 [_ [_ [H4 [H5 [H6 H7]]]]]].
  split; [exact Hr|]. split; [reflexivity|]. split; [exact H1|].
  split; [exact H4|]. split; [exact H5|]. split; [exact H6|]. apply H7.
Defined.

Lemma stop_effect (w : World) (b : bool) :
  settled w -> timers_cooling w -> abortController (app w) = Some b ->
  let w' := step ClickStop w in
  app w' = stopScan (app w) /\ pending w' = pending w
  /\ clock w' = clock w /\ timers w' = []
  /\ isLiveUpdate (stopScan (app w)) = false
  /\ aborted (stopScan (app w)) = true.
Proof.
  intros Hd Hc Eb w'. subst w'. cbn [step].
  set (w1 := with_app (stopScan (app w)) w).
  assert (Hl : isLiveUpdate (stopScan (app w)) = false)
    by (unfold stopScan; now rewrite Eb).
  destruct (@commit_live_off w w1 Hd Hc eq_refl eq_refl eq_refl Hl)
    as [Ca [Cp [Ck Ct]]].
  rewrite Ca, Cp, Ck, Ct. repeat split; [exact Hl|].
  unfold stopScan, aborted. now rewrite Eb.
Qed.

(** X5: before any scan has been started, [stopScan] does nothing.
    After that it raises the signal, sets the stopped status (count and
    error detail as they were, complete unset), switches live update
    off and leaves no timer, so that no lapse of time starts a scan;
    it publishes nothing, and the invocations in flight stay
    suspended on their page requests. *)
Theorem X5_stop :
  forall w : World,
    reachable w ->
    (abortController (app w) = None -> step ClickStop w = w)
    /\ (abortController (app w) <> None ->
        let w' := step ClickStop w in
        aborted (app w') = true
        /\ fetchStatus (app w') = stoppedStatus (fetchStatus (app w))
        /\ isLiveUpdate (app w') = false
        /\ holders (app w') = holders (app w)
        /\ pending w' = pending w
        /\ timers w' = []
        /\ forall dt : N, step (Elapse dt) w' = advance dt w').
Proof.
  intros w Hr. destruct (reachable_timers_cooling Hr) as [Hd Hc]. split.
  - intro Hn. cbn [step]. unfold stopScan. rewrite Hn.
    unfold with_app. rewrite world_eta. now apply commit_of_settled.
  - intros Hn w'. subst w'.
    destruct (abortController (app w)) as [b|] eqn:Eb; [|now elim Hn].
    destruct (@stop_effect w b Hd Hc Eb) as [Ea [Ep [_ [Et [Hl Hab]]]]].
    rewrite Ea, Ep, Et.
    split; [exact Hab|]. split; [unfold stopScan; now rewrite Eb|].
    split; [exact Hl|]. split; [unfold stopScan; now rewrite Eb|].
    split; [reflexivity|]. split; [reflexivity|].
    intro dt. now apply elapse_no_timer.
Qed.

Lemma X5_stop_witness :
  let w := run [ClickLiveUpdate; Settle 0 (Fulfilled Fixture.page1)]
               initialWorld in
  let w' := step ClickStop w in
  reachable initialWorld /\ abortController (app initialWorld) = None
  /\ step ClickStop initialWorld = initialWorld
  /\ reachable w /\ abortController (app w) <> None
  /\ aborted (app w') = true
  /\ fetchStatus (app w') = stoppedStatus (fetchStatus (app w))
  /\ pending w' = pending w
  /\ List.length (pending w') = 1
  /\ timers w' = [].
Proof.
  intros w w'.
  assert (Hr : reachable w) by (apply reachable_run; constructor).
  assert (Hn : abortController (app w) <> None) by discriminate.
  destruct (@X5_stop initialWorld reach_init) as [H0 _].
  destruct (@X5_stop w Hr) as [_ H].
  destruct (H Hn) as [H1 [H2 [_ [_ [H5 [H6 _]]]]]].
  split; [constructor|]. split; [reflexivity|].
  split; [apply H0; reflexivity|].
  split; [exact Hr|]. split; [exact Hn|]. split; [exact H1|].
  split; [exact H2|]. split; [exact H5|]. split; [reflexivity|exact H6].
Defined.

(** X6: a stop does not discard the page that is on its way.  When it
    arrives as the last page of the scan, the scan completes all the
    same: the aggregation of all its pages is published with the
    complete status (live update stays off, no timer is armed).  When
    it announces a further page, the scan ends in the [catch] block:
    nothing is published and the status is the error status with
    detail ["Scan aborted by user"]. *)
Theorem X6_page_in_flight_after_stop :
  forall (w : World) (i : nat) (sc : Scan) (b : Batch),
    reachable w -> abortController (app w) <> None ->
    nth_error (pending w) i = Some sc ->
    let w' := run [ClickStop; Settle i (Fulfilled b)] w in
    pending w' = remove_nth i (pending w)
    /\ isLiveUpdate (app w') = false
    /\ timers w' = []
    /\ (marker_truthy (nextMarker b) = false ->
        holders (app w')
        = aggregate (allLines sc ++ holdersBatch (lines b))
            (cl_excludeIssuer (sc_closure sc)) (cl_metrics (sc_closure sc))
        /\ fetchStatus (app w')
           = completeStatus (List.length (holders (app w'))))
    /\ (continuing b ->
        holders (app w') = holders (app w)
        /\ isFetching (fetchStatus (app w')) = false
        /\ statusMessage (fetchStatus (app w')) = "Error during scan."
        /\ error (fetchStatus (app w')) = Some "Scan aborted by user").
Proof.
  intros w i sc b Hr Hn Hp w'. subst w'. cbn [run fold_left].
  destruct (reachable_timers_cooling Hr) as [Hd Hc].
  destruct (abortController (app w)) as [b0|] eqn:Eb; [|now elim Hn].
  destruct (@stop_effect w b0 Hd Hc Eb) as [Ea [Ep [_ [_ [Hl Hab]]]]].
  destruct (@step_timers_cooling ClickStop w (conj Hd Hc)) as [Hd1 Hc1].
  set (w1 := step ClickStop w) in *.
  cbn [step]. unfold settle. rewrite Ep, Hp, Ea.
  destruct (marker_truthy (nextMarker b)) eqn:Em.
  - rewrite (@resume_cancelled b sc (clock w1) (stopScan (app w)) Em Hab).
    cbv zeta.
    set (w2 := mkWorld _ _ _ _ _ _ _).
    destruct (@commit_live_off w1 w2 Hd1 Hc1 eq_refl eq_refl eq_refl eq_refl)
      as [Ca [Cp [_ Ct]]].
    rewrite Ca, Cp, Ct. subst w2. cbn [app pending].
    split; [reflexivity|]. split; [reflexivity|]. split; [reflexivity|].
    split; [discriminate|]. intros _.
    unfold stopScan. rewrite Eb.
    destruct (isBackgroundUpdate sc); repeat split.
  - rewrite (@resume_last b sc (clock w1) (stopScan (app w)) Em). cbv zeta.
    set (st0 := if isBackgroundUpdate sc then _ else _).
    destruct (processResults_frame (allLines sc ++ holdersBatch (lines b))
                (isBackgroundUpdate sc) (sc_closure sc) (clock w1) st0)
      as [Pl _].
    assert (Hl0 : isLiveUpdate st0 = false)
      by (subst st0; destruct (isBackgroundUpdate sc); exact Hl).
    set (w2 := mkWorld _ _ _ _ _ _ _).
    assert (Hl2 : isLiveUpdate (app w2) = false)
      by (subst w2; cbn [app]; congruence).
    destruct (@commit_live_off w1 w2 Hd1 Hc1 eq_refl eq_refl eq_refl Hl2)
      as [Ca [Cp [_ Ct]]].
    rewrite Ca, Cp, Ct. subst w2. cbn [app pending].
    split; [reflexivity|]. split; [congruence|]. split; [reflexivity|].
    split; [|unfold continuing; congruence]. intros _.
    rewrite processResults_holders. split; [reflexivity|].
    unfold processResults. destruct (isBackgroundUpdate sc); reflexivity.
Qed.

Lemma X6_page_in_flight_after_stop_witness :
  let w := step ClickStart initialWorld in
  let w' := run [ClickStop; Settle 0 (Fulfilled Fixture.page2)] w in
  reachable w /\ abortController (app w) <> None
  /\ marker_truthy (nextMarker Fixture.page2) = false
  /\ map account (holders (app w')) = ["C"]
  /\ fetchStatus (app w') = completeStatus 1
  /\ isLiveUpdate (app w') = false.
Proof.
  intros w w'.
  assert (Hr : reachable w) by (repeat constructor).
  assert (Hn : abortController (app w) <> None) by discriminate.
  destruct (@X6_page_in_flight_after_stop w 0 _ Fixture.page2 Hr Hn eq_refl)
    as [_ [Hl [_ [Hlast _]]]].
  destruct (Hlast eq_refl) as [Hh Hf].
  split; [exact Hr|]. split; [exact Hn|]. split; [reflexivity|].
  split; [reflexivity|]. split; [exact Hf | exact Hl].
Defined.

(* ================================================================= *)
(** ** One scan at a time, unless a scan is stopped *)

Section SingleFlight.

Lemma startScan_flight (cl : Closure) (w : World) :
  isFetching (cl_fetchStatus cl) = false ->
  isFetching (fetchStatus (app w)) = false ->
  forall w' : World,
    app w' = fst (startScan cl (app w)) ->
    (exists sc, pending w' = pending w ++ [sc]) ->
    in_step w -> in_step w'.
Proof.
  intros Hcl Hf w' Ea [sc Ep] [[[Hft _]|[_ Hp]] _]; [congruence|].
  destruct (@startScan_enters cl (app w) Hcl) as [st' [Hs [Hfs [_ [Hab _]]]]].
  rewrite Hs in Ea. cbn [fst] in Ea. unfold in_step, flight, aborted.
  rewrite Ea, Ep, Hp, Hfs, Hab. cbn. split; [|reflexivity].
  left. split; [reflexivity|]. now exists sc.
Qed.

Lemma in_step_ext (w w' : World) :
  fetchStatus (app w') = fetchStatus (app w) ->
  abortController (app w') = abortController (app w) ->
  pending w' = pending w ->
  in_step w -> in_step w'.
Proof.
  unfold in_step, flight, aborted. intros -> -> ->. trivial.
Qed.

Lemma commit_in_step (w w1 : World) :
  settled w -> timers_cooling w ->
  timers w1 = timers w -> effTimeout w1 = effTimeout w ->
  effDeps w1 = effDeps w ->
  in_step w1 -> in_step (commit w1).
Proof.
  intros Hd Hc Et Ee Ed Hk.
  assert (Hs1 : slot w1).
  { eapply slot_ext; [exact Et | exact Ee |]. now apply timers_cooling_slot. }
  destruct (deps_changed w1) eqn:Ec.
  - destruct (effect_cases (app w1)) as [[Hl [Hf Hc']]|[[Hl [Hf [Hc' Hh]]]|Hi]].
    + destruct (@commit_arms w1 Hs1 Ec Hl Hf Hc') as [_ [Ea [Ep _]]].
      apply (@in_step_ext w1); congruence.
    + destruct (@commit_starts w1 Hs1 Ec Hl Hf Hc' Hh) as [Ea [Ep _]].
      apply (@startScan_flight (render (app w1)) w1 Hf Hf);
        [exact Ea | eexists; exact Ep | exact Hk].
    + destruct (commit_idle Hi Hs1 (or_intror Ec)) as [Ea [Ep _]].
      apply (@in_step_ext w1); congruence.
  - assert (Hset : settled w1).
    { unfold settled. rewrite Ed, Hd. f_equal. symmetry.
      apply (@deps_unchanged w1); [now rewrite Ed|exact Ec]. }
    now rewrite (commit_of_settled Hset).
Qed.

Lemma call_startScan_in_step (w : World) :
  in_step w -> in_step (call_startScan (render (app w)) w).
Proof.
  intro Hk.
  destruct (isFetching (fetchStatus (app w))) eqn:Hf.
  - assert (E : call_startScan (render (app w)) w = w).
    { unfold call_startScan, startScan. cbn [cl_fetchStatus render].
      rewrite Hf. apply world_eta. }
    now rewrite E.
  - assert (Hcl : isFetching (cl_fetchStatus (render (app w))) = false)
      by exact Hf.
    destruct (@call_startScan_starts (render (app w)) w Hcl) as [_ [G2 _]].
    apply (@startScan_flight (render (app w)) w Hcl Hf);
      [apply call_startScan_app | eexists; exact G2 | exact Hk].
Qed.

Lemma settle_in_step (i : nat) (r : Settled) (w : World) :
  in_step w -> in_step (settle i r w).
Proof.
  intros [Hfl Hab]. unfold settle.
  destruct (nth_error (pending w) i) as [sc|] eqn:En; [|now split].
  destruct Hfl as [[Hf [sc0 Hp]]|[_ Hp]];
    [|rewrite Hp in En; destruct i; discriminate].
  rewrite Hp in En. destruct i as [|i]; [|destruct i; discriminate].
  cbn in En. inversion En; subst sc0; clear En.
  destruct r as [b|msg].
  - destruct (marker_truthy (nextMarker b)) eqn:Em.
    + rewrite (@resume_continue b sc (clock w) (app w) Em Hab). cbv zeta.
      rewrite Hp. unfold in_step, flight, aborted in *. cbn.
      destruct (isBackgroundUpdate sc); cbn; (split; [|exact Hab]);
        left; (split; [exact Hf | eexists; reflexivity]).
    + rewrite (@resume_last b sc (clock w) (app w) Em). cbv zeta.
      rewrite Hp. unfold in_step, flight, aborted in *. cbn.
      unfold processResults.
      destruct (isBackgroundUpdate sc); cbn; (split; [|exact Hab]);
        right; split; reflexivity.
  - cbn [resume]. rewrite Hp. unfold in_step, flight, aborted in *. cbn.
    split; [|exact Hab]. right. split; reflexivity.
Qed.

Lemma step_in_step (e : Event) (w : World) :
  e <> ClickStop ->
  settled w -> timers_cooling w -> in_step w -> in_step (step e w).
Proof.
  intros Hne Hd Hc Hk.
  destruct e as [| | | |m|i r|dt]; cbn [step]; [| now elim Hne | | | | |].
  - destruct (call_startScan_frame (render (app w)) w) as [H1 [H2 [H3 _]]].
    apply (@commit_in_step w _ Hd Hc H1 H2 H3).
    now apply call_startScan_in_step.
  - apply (@commit_in_step w);
      [exact Hd | exact Hc | reflexivity | reflexivity | reflexivity |].
    apply (@in_step_ext w); [reflexivity ..|exact Hk].
  - apply (@commit_in_step w);
      [exact Hd | exact Hc | reflexivity | reflexivity | reflexivity |].
    apply (@in_step_ext w); [reflexivity ..|exact Hk].
  - apply (@commit_in_step w);
      [exact Hd | exact Hc | reflexivity | reflexivity | reflexivity |].
    apply (@in_step_ext w); [reflexivity ..|exact Hk].
  - assert (F : timers (settle i r w) = timers w
                /\ effTimeout (settle i r w) = effTimeout w
                /\ effDeps (settle i r w) = effDeps w).
    { unfold settle. destruct (nth_error (pending w) i); [|repeat split].
      destruct (resume r s (clock w) (app w)). repeat split. }
    destruct F as [F1 [F2 F3]].
    apply (@commit_in_step w _ Hd Hc F1 F2 F3). now apply settle_in_step.
  - destruct (elapse_cases dt Hd Hc) as [E|[t [Hct [_ E]]]]; rewrite E.
    + apply (@in_step_ext w); [reflexivity ..|exact Hk].
    + destruct (@run_timer_cooling dt w t Hct) as [Ea [Ep _]].
      pose proof Hct as [_ [_ [_ [_ [Hf [_ Hcl]]]]]].
      apply (@startScan_flight (tm_closure t) w Hcl Hf);
        [exact Ea | eexists; exact Ep | exact Hk].
Qed.

Lemma run_in_step (es : list Event) :
  forall w : World,
    ~ In ClickStop es ->
    settled w -> timers_cooling w -> in_step w -> in_step (run es w).
Proof.
  induction es as [|e es IH]; intros w Hn Hd Hc Hk; [exact Hk|].
  cbn [run fold_left].
  assert (Hne : e <> ClickStop) by (intro E; apply Hn; now left).
  destruct (@step_timers_cooling e w (conj Hd Hc)) as [Hd' Hc'].
  apply IH; [intro H; apply Hn; now right | exact Hd' | exact Hc' |].
  now apply step_in_step.
Qed.

End SingleFlight.

(** X7: as long as no scan is stopped, whatever else happens (clicks,
    pages arriving or failing, metrics, time passing, timers firing),
    at most one invocation of [startScan] is in flight, the flag
    [isFetching] is set exactly when one is, and the cancellation
    signal is never found raised. *)
Theorem X7_single_flight_unless_stopped :
  forall es : list Event,
    ~ In ClickStop es ->
    let w := run es initialWorld in
    List.length (pending w) <= 1
    /\ (isFetching (fetchStatus (app w)) = true <-> pending w <> [])
    /\ aborted (app w) = false.
Proof.
  intros es Hn w.
  assert (H0 : in_step initialWorld)
    by (split; [right; split; reflexivity | reflexivity]).
  destruct (reachable_timers_cooling reach_init) as [Hd Hc].
  destruct (@run_in_step es initialWorld Hn Hd Hc H0) as [Hfl Hab].
  fold w in Hfl, Hab. split; [|split; [|exact Hab]].
  - destruct Hfl as [[_ [sc Hp]]|[_ Hp]]; rewrite Hp; cbn; lia.
  - destruct Hfl as [[Hf [sc Hp]]|[Hf Hp]]; rewrite Hf, Hp; split;
      try discriminate; try reflexivity; intro H; now elim H.
Qed.

Lemma X7_single_flight_unless_stopped_witness :
  let es := [ClickLiveUpdate; ClickStart; Settle 0 (Fulfilled Fixture.page1);
             ClickStart; Settle 0 (Fulfilled Fixture.page2); Elapse 10000;
             ClickStart] in
  let w := run es initialWorld in
  ~ In ClickStop es
  /\ List.length (pending w) <= 1
  /\ (isFetching (fetchStatus (app w)) = true <-> pending w <> [])
  /\ aborted (app w) = false.
Proof.
  intros es w.
  assert (Hn : ~ In ClickStop es).
  { cbn. intros [H|[H|[H|[H|[H|[H|[H|[]]]]]]]]; discriminate. }
  split; [exact Hn|].
  exact (@X7_single_flight_unless_stopped es Hn).
Defined.

(** The hypothesis of X7 is needed: a stop leaves the invocation in
    flight, and a start then adds a second one. *)
Example two_scans_after_stop :
  List.length (pending (run [ClickStart; ClickStop; ClickStart] initialWorld))
  = 2.
Proof. reflexivity. Qed.

(* ================================================================= *)
(** ** The published list in every reachable state *)

Section Published.

Lemma aggregate_well_ranked (raw : list RawHolding) (excl : bool)
  (m : option TokenMetrics) :
  Forall positive raw -> well_ranked (aggregate raw excl m).
Proof.
  intro Hp. split; [|split].
  - apply sorted_map_raw. rewrite aggregate_raw.
    apply kept_sorted, js_sort_sorted.
    eapply Forall_impl; [|exact Hp]. intros h Hh. exact (@gtb_not_nan _ _ Hh).
  - apply aggregate_rank.
  - assert (H : Forall positive (map raw_of (aggregate raw excl m))).
    { rewrite aggregate_raw.
      assert (Hs : Forall positive (js_sort comparator raw))
        by (eapply Permutation_Forall;
            [symmetry; apply js_sort_perm | exact Hp]).
      destruct excl; cbn [kept]; [|exact Hs].
      apply Forall_forall. intros h Hh. apply filter_In in Hh.
      rewrite Forall_forall in Hs. now apply Hs. }
    rewrite Forall_map in H. exact H.
Qed.

Lemma grown_refl (w w' : World) : pending w' = pending w -> grown w w'.
Proof. intros E sc H. left. now rewrite <- E. Qed.

Lemma grown_trans (w1 w2 w3 : World) :
  grown w1 w2 -> grown w2 w3 -> grown w1 w3.
Proof.
  intros H12 H23 sc H. destruct (H23 sc H) as [H'|H']; [|now right].
  now apply H12.
Qed.

Lemma call_startScan_grown (cl : Closure) (w : World) :
  grown w (call_startScan cl w).
Proof.
  intros sc H. unfold call_startScan, startScan, loop_head in H.
  destruct (isFetching (cl_fetchStatus cl)); [now left|].
  cbn in H. apply in_app_or in H. destruct H as [H|[H|[]]]; [now left|].
  right. now subst sc.
Qed.

Lemma liveUpdateEffect_grown (w : World) : grown w (liveUpdateEffect w).
Proof.
  unfold liveUpdateEffect, setTimeout_startScan.
  destruct (isLiveUpdate (app w) && negb (isFetching (fetchStatus (app w))));
    [|now apply grown_refl].
  destruct (complete (fetchStatus (app w))); [now apply grown_refl|].
  destruct (List.length (holders (app w)) =? 0); [|now apply grown_refl].
  eapply grown_trans; [apply call_startScan_grown | now apply grown_refl].
Qed.

Lemma commit1_grown (w : World) : grown w (commit1 w).
Proof.
  unfold commit1. destruct (deps_changed w); [|now apply grown_refl].
  eapply grown_trans; [|apply liveUpdateEffect_grown].
  apply grown_refl. cbn [pending set_effDeps].
  now destruct (cleanup_frame w) as [_ [H _]].
Qed.

Lemma commit_grown (w : World) : grown w (commit w).
Proof. unfold commit. eapply grown_trans; apply commit1_grown. Qed.

Lemma fire_grown (fuel : nat) (w : World) : grown w (fire fuel w).
Proof.
  revert w. induction fuel as [|n IH]; intro w; cbn [fire];
    [now apply grown_refl|].
  destruct (find _ (timers w)) as [t|]; [|now apply grown_refl].
  eapply grown_trans; [|apply IH]. unfold run_timer.
  eapply grown_trans; [|apply commit_grown].
  eapply grown_trans; [|apply call_startScan_grown].
  apply grown_refl. reflexivity.
Qed.

Lemma grown_gathering (w w' : World) :
  grown w w' -> gathering_positive w -> gathering_positive w'.
Proof.
  unfold gathering_positive. intros Hg Hw. rewrite Forall_forall in *.
  intros sc H. destruct (Hg sc H) as [H'|H']; [now apply Hw|].
  rewrite H'. constructor.
Qed.

Lemma In_remove_nth {A : Type} (i : nat) (l : list A) (x : A) :
  In x (remove_nth i l) -> In x l.
Proof.
  revert i. induction l as [|y l IH]; intros [|i] H; cbn in *; auto.
  destruct H as [H|H]; [now left | right; now apply (IH i)].
Qed.

Lemma In_replace_nth {A : Type} (i : nat) (v : A) (l : list A) (x : A) :
  In x (replace_nth i v l) -> In x l \/ x = v.
Proof.
  revert i. induction l as [|y l IH]; intros [|i] H; cbn in *; auto.
  - destruct H as [H|H]; [now right | left; now right].
  - destruct H as [H|H]; [left; now left|].
    destruct (IH i H) as [H'|H']; [left; now right | now right].
Qed.

Lemma settle_gathering (i : nat) (r : Settled) (w : World) :
  gathering_positive w -> gathering_positive (settle i r w).
Proof.
  unfold gathering_positive, settle. intro Hw.
  destruct (nth_error (pending w) i) as [sc|] eqn:En; [|exact Hw].
  assert (Hsc : Forall positive (allLines sc)).
  { rewrite Forall_forall in Hw. apply Hw. eapply nth_error_In. exact En. }
  assert (Hrm : Forall (fun sc => Forall positive (allLines sc))
                       (remove_nth i (pending w))).
  { rewrite Forall_forall in *. intros x Hx. apply Hw.
    now apply (In_remove_nth i). }
  destruct r as [b|msg]; [|exact Hrm].
  unfold resume, loop_head.
  destruct (marker_truthy (nextMarker b)); [|exact Hrm].
  match goal with |- context [if aborted ?s then _ else _] =>
    destruct (aborted s) end; [exact Hrm|].
  cbn [pending]. clear Hrm. rewrite Forall_forall in Hw |- *. intros x Hx.
  destruct (In_replace_nth _ _ _ _ Hx) as [H|H]; [now apply Hw|].
  subst x. cbn [allLines]. apply Forall_app. split; [exact Hsc|].
  eapply Forall_impl; [|apply holdersBatch_positive]. trivial.
Qed.

Lemma step_gathering (e : Event) (w : World) :
  gathering_positive w -> gathering_positive (step e w).
Proof.
  intro Hw. destruct e as [| | | |m|i r|dt]; cbn [step].
  - eapply grown_gathering; [|exact Hw].
    eapply grown_trans; [apply call_startScan_grown | apply commit_grown].
  - eapply grown_gathering; [apply commit_grown | exact Hw].
  - eapply grown_gathering; [apply commit_grown | exact Hw].
  - eapply grown_gathering; [apply commit_grown | exact Hw].
  - eapply grown_gathering; [apply commit_grown | exact Hw].
  - eapply grown_gathering; [apply commit_grown |].
    now apply settle_gathering.
  - eapply grown_gathering; [|exact Hw]. unfold elapse.
    eapply grown_trans; [|apply fire_grown]. now apply grown_refl.
Qed.

Lemma step_well_ranked (e : Event) (w : World) :
  gathering_positive w -> well_ranked (holders (app w)) ->
  well_ranked (holders (app (step e w))).
Proof.
  intros Hg Hw. destruct (step_frame e w) as [[Hh _]|[sc [b [Hl [Hh _]]]]].
  - now rewrite Hh.
  - rewrite Hh. apply aggregate_well_ranked.
    destruct Hl as [i [_ [Hn _]]].
    apply Forall_app. split.
    + unfold gathering_positive in Hg. rewrite Forall_forall in Hg.
      apply Hg. eapply nth_error_In. exact Hn.
    + eapply Forall_impl; [|apply holdersBatch_positive]. trivial.
Qed.

Lemma reachable_published (w : World) :
  reachable w -> well_ranked (holders (app w)) /\ gathering_positive w.
Proof.
  induction 1 as [|e w Hr [IH1 IH2]].
  - split; [repeat split; constructor | constructor].
  - split; [now apply step_well_ranked | now apply step_gathering].
Qed.

End Published.

(** X8: in every reachable state of the component the published list
    is sorted by descending balance, its ranks are exactly 1..N in list
    order, and every balance in it is positive (so none is NaN, zero or
    negative); and every scan in flight has gathered holdings of
    positive balance only. *)
Theorem X8_published_list_always_well_ranked :
  forall w : World,
    reachable w ->
    StronglySorted (fun x y => geb (balance x) (balance y) = true)
                   (holders (app w))
    /\ map rank (holders (app w)) = seq 1 (List.length (holders (app w)))
    /\ Forall (fun h => gtb (balance h) (of_Z 0) = true) (holders (app w))
    /\ Forall (fun sc => Forall positive (allLines sc)) (pending w).
Proof.
  intros w Hr.
  destruct (reachable_published Hr) as [[H1 [H2 H3]] H4].
  repeat split; assumption.
Qed.

Lemma X8_published_list_always_well_ranked_witness :
  let w := run (Fixture.whole_scan
                ++ [ClickStart; Settle 0 (Fulfilled Fixture.page1)])
               initialWorld in
  reachable w
  /\ StronglySorted (fun x y => geb (balance x) (balance y) = true)
                    (holders (app w))
  /\ map rank (holders (app w)) = seq 1 (List.length (holders (app w)))
  /\ Forall (fun h => gtb (balance h) (of_Z 0) = true) (holders (app w))
  /\ Forall (fun sc => Forall positive (allLines sc)) (pending w).
Proof.
  intro w.
  assert (Hr : reachable w) by (apply reachable_run; constructor).
  split; [exact Hr|]. exact (@X8_published_list_always_well_ranked w Hr).
Defined.

(* ================================================================= *)
(** ** The trustline supply *)

Section Supply.

Lemma gtb_geb (a b : number) : gtb a b = true -> geb a b = true.
Proof. unfold geb. now intros ->. Qed.

(** Adding a positive number to a non-negative one gives a positive
    number, not below either. *)
Lemma add_positive (a b : number) :
  geb a (of_Z 0) = true -> gtb b (of_Z 0) = true ->
  gtb (add a b) (of_Z 0) = true
  /\ geb (add a b) a = true /\ geb (add a b) b = true.
Proof.
  destruct a as [| | |p], b as [| | |q]; try discriminate;
    try (intros; repeat split; reflexivity).
  unfold of_Z. rewrite geb_le. unfold gtb, ltb. rewrite Qltb_lt.
  intros Hp Hq. cbn [add]. rewrite !geb_le, Qltb_lt, !Qred_correct.
  repeat split.
  - apply Qlt_le_trans with (y := q); [exact Hq|].
    rewrite <- (Qplus_0_l q) at 1. now apply Qplus_le_l.
  - rewrite <- (Qplus_0_r p) at 1. apply Qplus_le_r. now apply Qlt_le_weak.
  - rewrite <- (Qplus_0_l q) at 1. now apply Qplus_le_l.
Qed.

Lemma geb_refl (a : number) : a <> NaN -> geb a a = true.
Proof.
  destruct a as [| | |p]; try reflexivity; [congruence|].
  intros _. apply geb_le. apply Qle_refl.
Qed.

Lemma supply_from (hs : list Holder) :
  forall acc : number,
    geb acc (of_Z 0) = true ->
    Forall (fun h => gtb (balance h) (of_Z 0) = true) hs ->
    let s := fold_left (fun a h => add a (balance h)) hs acc in
    geb s acc = true
    /\ (hs <> [] -> gtb s (of_Z 0) = true)
    /\ Forall (fun h => geb s (balance h) = true) hs.
Proof.
  induction hs as [|h hs IH]; intros acc Hacc Hpos s; subst s; cbn [fold_left].
  - split; [apply geb_refl; exact (@geb_not_nan_l _ _ Hacc)|].
    split; [intro H; now elim H | constructor].
  - inversion Hpos as [|? ? Hh Hhs]; subst.
    destruct (@add_positive _ _ Hacc Hh) as [A1 [A2 A3]].
    destruct (IH (add acc (balance h)) (@gtb_geb _ _ A1) Hhs)
      as [B1 [B2 B3]].
    split; [exact (geb_trans _ _ _ B1 A2)|].
    split.
    + intros _. destruct hs as [|h' hs]; [exact A1 | apply B2; discriminate].
    + constructor; [exact (geb_trans _ _ _ B1 A3) | exact B3].
Qed.

End Supply.

(** X9: in every reachable state the trustline supply shown beside the
    list is 0 when nothing is published and positive (so never NaN)
    otherwise, and no published balance exceeds it. *)
Theorem X9_trustline_supply :
  forall w : World,
    reachable w ->
    let s := trustlineSupply (holders (app w)) in
    (holders (app w) = [] -> s = of_Z 0)
    /\ (holders (app w) <> [] -> gtb s (of_Z 0) = true)
    /\ Forall (fun h => geb s (balance h) = true) (holders (app w)).
Proof.
  intros w Hr s. subst s.
  destruct (reachable_published Hr) as [[_ [_ Hpos]] _].
  split; [intros ->; reflexivity|].
  destruct (@supply_from (holders (app w)) (of_Z 0) eq_refl Hpos)
    as [_ [H2 H3]].
  split; assumption.
Qed.

Lemma X9_trustline_supply_witness :
  let w := run Fixture.whole_scan initialWorld in
  reachable w
  /\ trustlineSupply (holders (app w)) = of_Z 600
  /\ (holders (app w) <> [] ->
      gtb (trustlineSupply (holders (app w))) (of_Z 0) = true)
  /\ Forall (fun h => geb (trustlineSupply (holders (app w))) (balance h)
                      = true)
            (holders (app w)).
Proof.
  intro w.
  assert (Hr : reachable w) by (apply reachable_run; constructor).
  destruct (@X9_trustline_supply w Hr) as [_ [H2 H3]].
  split; [exact Hr|]. split; [reflexivity|]. split; assumption.
Defined.

(* ================================================================= *)
(** ** A scan works with the values of the render that started it *)

Section StaleRender.

Lemma call_startScan_prefix (cl : Closure) (w : World) :
  exists l, pending (call_startScan cl w) = pending w ++ l.
Proof.
  unfold call_startScan. destruct (startScan cl (app w)) as [st o].
  destruct o; cbn [pending];
    try (exists []; now rewrite app_nil_r). eexists. reflexivity.
Qed.

Lemma commit1_prefix (w : World) :
  exists l, pending (commit1 w) = pending w ++ l.
Proof.
  unfold commit1. destruct (deps_changed w);
    [|exists []; now rewrite app_nil_r].
  destruct (cleanup_frame w) as [_ [Hp _]].
  unfold liveUpdateEffect, setTimeout_startScan.
  cbn [app pending set_effDeps set_effTimeout].
  repeat match goal with |- context [if ?c then _ else _] => destruct c end;
    cbn [pending set_effTimeout]; rewrite <- ?Hp;
    try (exists []; now rewrite app_nil_r).
  apply (call_startScan_prefix _ (set_effDeps (deps (app w)) (cleanup w))).
Qed.

Lemma commit_prefix (w : World) :
  exists l, pending (commit w) = pending w ++ l.
Proof.
  unfold commit. destruct (commit1_prefix w) as [l1 H1].
  destruct (commit1_prefix (commit1 w)) as [l2 H2].
  exists (l1 ++ l2). now rewrite H2, H1, app_assoc.
Qed.

Lemma nth_error_prefix {A : Type} (l l' : list A) (i : nat) (x : A) :
  nth_error l i = Some x -> nth_error (l ++ l') i = Some x.
Proof.
  intro H. rewrite nth_error_app1; [exact H|].
  apply nth_error_Some. congruence.
Qed.

(** The last page of a scan publishes the aggregation computed with the
    values of that scan's render. *)
Lemma settle_last_holders (w : World) (i : nat) (sc : Scan) (b : Batch) :
  nth_error (pending w) i = Some sc ->
  marker_truthy (nextMarker b) = false ->
  holders (app (step (Settle i (Fulfilled b)) w))
  = aggregate (allLines sc ++ holdersBatch (lines b))
      (cl_excludeIssuer (sc_closure sc)) (cl_metrics (sc_closure sc)).
Proof.
  intros Hn Hb. cbn [step].
  destruct (commit_same (settle i (Fulfilled b) w)) as [Hh _].
  rewrite Hh. unfold settle.
  rewrite Hn, (@resume_last b sc (clock w) (app w) Hb). cbv zeta. cbn [app].
  apply processResults_holders.
Qed.

Lemma commit_clock (w : World) : clock (commit w) = clock w.
Proof.
  assert (H : forall w, clock (commit1 w) = clock w).
  { clear w. intro w. unfold commit1. destruct (deps_changed w); [|reflexivity].
    destruct (cleanup_frame w) as [_ [_ [Hk _]]].
    unfold liveUpdateEffect, setTimeout_startScan.
    cbn [app clock set_effDeps set_effTimeout].
    repeat match goal with |- context [if ?c then _ else _] => destruct c end;
      cbn [clock set_effTimeout]; try exact Hk.
    destruct (call_startScan_frame (render (app (cleanup w)))
                (set_effDeps (deps (app w)) (cleanup w)))
      as [_ [_ [_ [Hc _]]]].
    rewrite Hc. exact Hk. }
  unfold commit. now rewrite !H.
Qed.

End StaleRender.

(** X10: switching the issuer exclusion, or receiving a new metrics
    snapshot, while a scan is in flight does not change what that scan
    publishes: its last page publishes the aggregation under the
    exclusion switch and the metrics of the render that started the
    scan. *)
Theorem X10_scan_in_flight_ignores_new_settings :
  forall (w : World) (i : nat) (sc : Scan) (b : Batch) (e : Event),
    e = ClickExcludeIssuer \/ (exists m, e = MetricsLoaded m) ->
    nth_error (pending w) i = Some sc ->
    marker_truthy (nextMarker b) = false ->
    holders (app (run [e; Settle i (Fulfilled b)] w))
    = holders (app (step (Settle i (Fulfilled b)) w))
    /\ holders (app (run [e; Settle i (Fulfilled b)] w))
       = aggregate (allLines sc ++ holdersBatch (lines b))
           (cl_excludeIssuer (sc_closure sc)) (cl_metrics (sc_closure sc)).
Proof.
  intros w i sc b e He Hn Hb. cbn [run fold_left].
  assert (Hn' : nth_error (pending (step e w)) i = Some sc).
  { destruct He as [->|[m ->]]; cbn [step];
      match goal with |- context [commit ?x] =>
        destruct (commit_prefix x) as [l ->] end;
      now apply nth_error_prefix. }
  rewrite (@settle_last_holders (step e w) i sc b Hn' Hb),
          (@settle_last_holders w i sc b Hn Hb).
  split; reflexivity.
Qed.

Lemma X10_scan_in_flight_ignores_new_settings_witness :
  let w := run [ClickStart; Settle 0 (Fulfilled Fixture.page1)] initialWorld in
  let b := mkBatch [mkLine ISSUER "-9"] None in
  let w' := run [ClickExcludeIssuer; Settle 0 (Fulfilled b)] w in
  map allLines (pending w) = [[mkRaw "A" (of_Z 500)]]
  /\ excludeIssuer (app w') = false
  /\ map account (holders (app w')) = ["A"]
  /\ holders (app w') = holders (app (step (Settle 0 (Fulfilled b)) w)).
Proof.
  intros w b w'.
  destruct (@X10_scan_in_flight_ignores_new_settings w 0 _ b
              ClickExcludeIssuer (or_introl eq_refl) eq_refl eq_refl)
    as [H _].
  split; [reflexivity|]. split; [reflexivity|]. split; [reflexivity|exact H].
Defined.

(** X11: during the cooldown, switching the issuer exclusion or
    receiving new metrics leaves the armed timer in place, and the scan
    that the timer starts works with the render that armed it: the new
    setting does not reach the next automatic scan. *)
Theorem X11_timer_scan_keeps_old_settings :
  forall (w : World) (t : Timer) (e : Event),
    cooling w t ->
    e = ClickExcludeIssuer \/ (exists m, e = MetricsLoaded m) ->
    let w1 := step e w in
    cooling w1 t
    /\ (e = ClickExcludeIssuer ->
        excludeIssuer (app w1) = negb (excludeIssuer (app w)))
    /\ (forall m, e = MetricsLoaded m -> metrics (app w1) = m)
    /\ forall dt : N,
         (tm_due t <= clock w1 + dt)%N ->
         pending (step (Elapse dt) w1)
         = pending w ++ [mkScan (tm_closure t) [] None
                           (0 <? List.length (cl_holders (tm_closure t)))].
Proof.
  intros w t e Hc He w1. subst w1.
  pose proof Hc as [_ [_ [Hd _]]].
  assert (E : exists st,
             step e w = with_app st w /\ deps st = deps (app w)
             /\ (e = ClickExcludeIssuer ->
                 excludeIssuer st = negb (excludeIssuer (app w)))
             /\ (forall m, e = MetricsLoaded m -> metrics st = m)).
  { destruct He as [->|[m ->]]; cbn [step]; eexists;
      (split; [apply commit_of_settled; unfold settled in *; cbn; exact Hd|]);
      (split; [reflexivity|]); split; try discriminate; try reflexivity.
    intros m' Hm. now inversion Hm. }
  destruct E as [st [-> [Hdeps [Hx Hm]]]].
  assert (Hc1 : cooling (with_app st w) t)
    by (apply (@cooling_same_deps w _ t Hc); try reflexivity; exact Hdeps).
  split; [exact Hc1|]. split; [exact Hx|]. split; [exact Hm|].
  intros dt Hle.
  exact (proj1 (proj2 (@cooling_fires (with_app st w) t dt Hc1 Hle))).
Qed.

Lemma X11_timer_scan_keeps_old_settings_witness :
  let w := run LiveFixture.first_cycle initialWorld in
  let t := mkTimer 0 10000%N (render (app w)) in
  let w1 := step ClickExcludeIssuer w in
  cooling w t
  /\ excludeIssuer (app w) = true
  /\ excludeIssuer (app w1) = false
  /\ map (fun sc => cl_excludeIssuer (sc_closure sc))
         (pending (step (Elapse 10000) w1)) = [true].
Proof.
  intros w t w1.
  assert (Hc : cooling w t)
    by (unfold cooling, settled; repeat (apply conj); vm_compute;
        reflexivity).
  destruct (@X11_timer_scan_keeps_old_settings w t ClickExcludeIssuer Hc
              (or_introl eq_refl)) as [_ [Hx [_ Hf]]].
  split; [exact Hc|]. split; [reflexivity|].
  split; [exact (Hx eq_refl)|].
  fold w1 in Hf. rewrite (Hf 10000%N); [reflexivity|].
  apply N.le_refl.
Defined.

(** X12: switching live update off and on again during a cooldown
    starts the cooldown afresh: the timer then pending is due a full
    cooldown after the moment of switching on, and no scan was started
    in between. *)
Theorem X12_reenabling_restarts_the_cooldown :
  forall (w : World) (t : Timer),
    cooling w t ->
    let w2 := run [ClickLiveUpdate; ClickLiveUpdate] w in
    exists t',
      cooling w2 t'
      /\ tm_due t' = (clock w + COOLDOWN)%N
      /\ pending w2 = pending w
      /\ clock w2 = clock w.
Proof.
  intros w t Hc w2. subst w2. cbn [run fold_left].
  pose proof Hc as [_ [_ [Hd [_ [Hf [Hk _]]]]]].
  destruct (@cooling_disabled w t Hc) as [D1 [_ [D3 [D4 _]]]].
  destruct (@step_inv ClickLiveUpdate w (conj (cooling_slot Hc) Hd))
    as [Hs1 Hd1].
  set (w1 := step ClickLiveUpdate w) in *.
  assert (Hck : clock w1 = clock w)
    by (subst w1; cbn [step]; now rewrite commit_clock).
  assert (Hf1 : isFetching (fetchStatus (app w1)) = false) by congruence.
  assert (Hk1 : complete (fetchStatus (app w1)) = true) by congruence.
  destruct (@enabling_arms w1 Hs1 Hd1 D1 Hf1 Hk1) as [Hc2 [Hck2 Hp2]].
  eexists. split; [exact Hc2|]. cbn [tm_due]. rewrite Hck, Hp2, Hck2, D3, Hck.
  repeat split.
Qed.

Lemma X12_reenabling_restarts_the_cooldown_witness :
  let w := step (Elapse 9000) (run LiveFixture.first_cycle initialWorld) in
  let t := mkTimer 0 10000%N
             (render (app (run LiveFixture.first_cycle initialWorld))) in
  let w2 := run [ClickLiveUpdate; ClickLiveUpdate] w in
  cooling w t
  /\ clock w = 9000%N
  /\ exists t', cooling w2 t' /\ tm_due t' = (clock w + COOLDOWN)%N
                /\ pending w2 = pending w /\ clock w2 = clock w.
Proof.
  intros w t w2.
  assert (Hc : cooling w t)
    by (unfold cooling, settled; repeat (apply conj); vm_compute;
        reflexivity).
  split; [exact Hc|]. split; [reflexivity|].
  exact (@X12_reenabling_restarts_the_cooldown w t Hc).
Defined.

(* ================================================================= *)
(** ** Labels, percentages and the order of the pipeline *)

Section Pipeline.

Lemma In_mapi_from {A B : Type} (f : A -> nat -> B) (l : list A) (y : B) :
  forall i, In y (mapi_from f i l) -> exists x j, In x l /\ y = f x j.
Proof.
  induction l as [|x l IH]; intros i H; cbn in H; [now elim H|].
  destruct H as [H|H].
  - exists x, i. split; [now left | now symmetry].
  - destruct (IH _ H) as [x' [j [Hin E]]]. exists x', j.
    split; [now right | exact E].
Qed.

(** The one team wallet of the table is the issuer account. *)
Lemma known_team (k : string) :
  option_map snd (lookup_wallet KNOWN_WALLETS k) = Some team <-> k = ISSUER.
Proof.
  unfold KNOWN_WALLETS, lookup_wallet.
  destruct (String.eqb k "rCSCManTZ8ME9EoLrSHHYKW8PPwWMgkwr") eqn:E.
  - apply String.eqb_eq in E. split; [intros _; exact E | reflexivity].
  - apply String.eqb_neq in E.
    repeat match goal with
           | |- context [if ?c then _ else _] => destruct c
           end; cbn; split; intro H; try discriminate; contradiction.
Qed.

Lemma geb_not_gtb (a b : number) : geb a b = true -> gtb b a = false.
Proof.
  destruct a as [| | |p], b as [| | |q]; try discriminate; try reflexivity.
  rewrite geb_le. intro H. unfold gtb, ltb. now apply Qltb_false.
Qed.

Lemma hd_error_In {A : Type} (l : list A) (z : A) :
  hd_error l = Some z -> In z l.
Proof. destruct l; [discriminate|]. intro H. inversion H. now left. Qed.

(** An element not below the head of the list is inserted in front. *)
Lemma sort_insert_front (x : RawHolding) (l : list RawHolding) :
  (forall y, hd_error l = Some y -> desc x y) ->
  sort_insert comparator x l = x :: l.
Proof.
  destruct l as [|y l]; intro H; [reflexivity|].
  cbn [sort_insert]. unfold comparator at 1.
  rewrite sub_positive, (geb_not_gtb _ _ (H y eq_refl)). reflexivity.
Qed.

Lemma sort_insert_behind (x y : RawHolding) (l : list RawHolding) :
  gtb (raw_balance y) (raw_balance x) = true ->
  sort_insert comparator x (y :: l) = y :: sort_insert comparator x l.
Proof.
  intro E. cbn [sort_insert]. unfold comparator at 1.
  now rewrite sub_positive, E.
Qed.

(** Sorting a sorted list changes nothing. *)
Lemma js_sort_sorted_id (l : list RawHolding) :
  StronglySorted desc l -> js_sort comparator l = l.
Proof.
  induction 1 as [|x l Hs IH Hx]; [reflexivity|].
  cbn [js_sort]. rewrite IH. apply sort_insert_front.
  intros y Hy. rewrite Forall_forall in Hx. apply Hx.
  now apply hd_error_In.
Qed.

Lemma filter_sort_insert (p : RawHolding -> bool) (x : RawHolding)
  (l : list RawHolding) :
  raw_balance x <> NaN -> Forall (fun h => raw_balance h <> NaN) l ->
  StronglySorted desc l ->
  filter p (sort_insert comparator x l)
  = if p x then sort_insert comparator x (filter p l) else filter p l.
Proof.
  intros Hx Hl Hs. induction Hs as [|y l Hs IH Hy]; cbn [sort_insert filter].
  - destruct (p x); reflexivity.
  - inversion Hl as [|? ? Hyn Hln]; subst. specialize (IH Hln).
    unfold comparator at 1. rewrite sub_positive.
    destruct (gtb (raw_balance y) (raw_balance x)) eqn:E.
    + cbn [filter]. rewrite IH.
      destruct (p y), (p x); try reflexivity.
      now rewrite (@sort_insert_behind x y _ E).
    + cbn [filter]. destruct (p x) eqn:Ex; [|reflexivity].
      symmetry. apply sort_insert_front. intros z Hz.
      assert (Hxy : desc x y) by now apply geb_total.
      assert (Hin : In z (filter p (y :: l))) by now apply hd_error_In.
      apply filter_In in Hin. destruct Hin as [[Hzy|Hzl] _].
      * now subst z.
      * rewrite Forall_forall in Hy. unfold desc in *.
        eapply geb_trans; [exact Hxy | now apply Hy].
Qed.

(** Filtering commutes with the sort. *)
Lemma filter_js_sort (p : RawHolding -> bool) (l : list RawHolding) :
  Forall (fun h => raw_balance h <> NaN) l ->
  filter p (js_sort comparator l) = js_sort comparator (filter p l).
Proof.
  induction 1 as [|x l Hx Hl IH]; [reflexivity|].
  cbn [js_sort filter].
  rewrite filter_sort_insert;
    [ | exact Hx
      | eapply Permutation_Forall; [symmetry; apply js_sort_perm | exact Hl]
      | now apply js_sort_sorted ].
  rewrite IH. destruct (p x); reflexivity.
Qed.

Lemma filter_idem {A : Type} (p : A -> bool) (l : list A) :
  filter p (filter p l) = filter p l.
Proof.
  induction l as [|x l IH]; [reflexivity|]. cbn [filter].
  destruct (p x) eqn:E; [|exact IH]. cbn [filter]. now rewrite E, IH.
Qed.

End Pipeline.

(** X13: in the list that aggregation produces, a holder has the
    wallet type [team] exactly when its account is the issuer account,
    it has a label exactly when it has a type, both are those of the
    table of known wallets for its account, and with the issuer
    excluded no holder of type [team] and no issuer account is left. *)
Theorem X13_wallet_labels :
  forall (raw : list RawHolding) (excl : bool) (m : option TokenMetrics)
         (h : Holder),
    In h (aggregate raw excl m) ->
    walletLabel h = option_map fst (lookup_wallet KNOWN_WALLETS (account h))
    /\ walletType h = option_map snd (lookup_wallet KNOWN_WALLETS (account h))
    /\ (walletType h = Some team <-> account h = ISSUER)
    /\ (walletLabel h = None <-> walletType h = None)
    /\ (excl = true -> account h <> ISSUER /\ walletType h <> Some team).
Proof.
  intros raw excl m h Hin. unfold aggregate, mapi in Hin.
  destruct (In_mapi_from _ _ _ _ Hin) as [x [j [Hx ->]]].
  cbn [toHolder walletLabel walletType account].
  split; [reflexivity|]. split; [reflexivity|].
  split; [apply known_team|].
  split; [destruct (lookup_wallet KNOWN_WALLETS (raw_account x));
          cbn; split; intro; try discriminate; reflexivity|].
  intros ->. apply filter_In in Hx. destruct Hx as [_ Hn].
  unfold notIssuer in Hn. apply negb_true_iff, String.eqb_neq in Hn.
  split; [exact Hn|]. intro H. apply known_team in H. contradiction.
Qed.

Lemma X13_wallet_labels_witness :
  let h := toHolder FALLBACK_SUPPLY (mkRaw ISSUER (of_Z 7000)) 0 in
  In h (aggregate sample_raw false None)
  /\ walletLabel h = Some "Issuer / Foundation"
  /\ (walletType h = Some team <-> account h = ISSUER)
  /\ ~ In h (aggregate sample_raw true None).
Proof.
  intro h.
  assert (Hin : In h (aggregate sample_raw false None)) by (now left).
  destruct (@X13_wallet_labels sample_raw false None h Hin)
    as [_ [_ [Ht _]]].
  split; [exact Hin|]. split; [reflexivity|]. split; [exact Ht|].
  intro H.
  destruct (@X13_wallet_labels sample_raw true None h H)
    as [_ [_ [_ [_ He]]]].
  destruct (He eq_refl) as [Hne _]. now apply Hne.
Defined.

(** X14: the supply basis is the total supply of the metrics snapshot
    when there is one and it is neither 0 nor NaN, and the fallback
    65,000,000,000 otherwise; it is never 0 or NaN, so that the
    percentage of a finite balance is never NaN. *)
Theorem X14_supply_basis :
  forall m : option TokenMetrics,
    truthy (supplyBasis m) = true
    /\ ((exists tm, m = Some tm /\ truthy (totalSupply tm) = true
                    /\ supplyBasis m = totalSupply tm)
        \/ ((m = None
             \/ exists tm, m = Some tm /\ truthy (totalSupply tm) = false)
            /\ supplyBasis m = of_Z 65000000000))
    /\ forall (a : string) (q : Q) (i : nat),
         percentage (toHolder (supplyBasis m) (mkRaw a (Fin q)) i) <> NaN.
Proof.
  intro m.
  assert (Ht : truthy (supplyBasis m) = true).
  { unfold supplyBasis. destruct m as [tm|]; [|reflexivity].
    destruct (truthy (totalSupply tm)) eqn:E; [exact E | reflexivity]. }
  split; [exact Ht|]. split.
  - unfold supplyBasis. destruct m as [tm|]; [|right; split; auto].
    destruct (truthy (totalSupply tm)) eqn:E.
    + left. exists tm. auto.
    + right. split; [right; exists tm; auto | reflexivity].
  - intros a q i. cbn [toHolder percentage raw_balance].
    destruct (supplyBasis m) as [| | |p]; try discriminate.
    cbn [truthy] in Ht. apply negb_true_iff in Ht.
    cbn [div]. rewrite Ht. discriminate.
Qed.

(** X15: excluding the issuer after the sort, as [processResults] does,
    gives the list that aggregation without exclusion gives on the
    input without the issuer's records; and aggregating the accounts
    and balances of an aggregated list again gives the same list. *)
Theorem X15_order_of_the_pipeline :
  forall (raw : list RawHolding) (m : option TokenMetrics),
    Forall (fun h => raw_balance h <> NaN) raw ->
    aggregate raw true m = aggregate (filter notIssuer raw) false m
    /\ forall excl : bool,
         aggregate (map raw_of (aggregate raw excl m)) excl m
         = aggregate raw excl m.
Proof.
  intros raw m Hraw. split.
  - unfold aggregate. now rewrite (filter_js_sort notIssuer Hraw).
  - intro excl. rewrite aggregate_raw. unfold aggregate at 1.
    rewrite js_sort_sorted_id by (apply kept_sorted, js_sort_sorted, Hraw).
    fold (kept excl (kept excl (js_sort comparator raw))).
    replace (kept excl (kept excl (js_sort comparator raw)))
      with (kept excl (js_sort comparator raw))
      by (destruct excl; cbn [kept]; [now rewrite filter_idem | reflexivity]).
    reflexivity.
Qed.

Lemma X15_order_of_the_pipeline_witness :
  Forall (fun h => raw_balance h <> NaN) sample_raw
  /\ aggregate sample_raw true None
     = aggregate (filter notIssuer sample_raw) false None
  /\ aggregate (map raw_of (aggregate sample_raw true None)) true None
     = aggregate sample_raw true None.
Proof.
  assert (H : Forall (fun h => raw_balance h <> NaN) sample_raw)
    by (repeat constructor; discriminate).
  destruct (@X15_order_of_the_pipeline sample_raw None H) as [H1 H2].
  split; [exact H|]. split; [exact H1 | exact (H2 true)].
Defined.

(* ================================================================= *)
(** ** Live update with a list but no completed scan *)

(** X16: when a list is published but the last scan did not complete
    (it failed or was stopped), switching live update on arms no timer
    and starts no scan, and no lapse of time starts one: the effect
    only acts on a completed scan or on an empty list. *)
Theorem X16_live_update_idle_after_incomplete_rescan :
  forall w : World,
    reachable w ->
    isLiveUpdate (app w) = false ->
    isFetching (fetchStatus (app w)) = false ->
    complete (fetchStatus (app w)) = false ->
    holders (app w) <> [] ->
    let w' := step ClickLiveUpdate w in
    isLiveUpdate (app w') = true
    /\ fetchStatus (app w') = fetchStatus (app w)
    /\ pending w' = pending w
    /\ timers w' = []
    /\ forall dt : N, step (Elapse dt) w' = advance dt w'.
Proof.
  intros w Hr Hl Hf Hk Hh w'. subst w'. cbn [step].
  destruct (reachable_inv Hr) as [Hs Hd].
  set (w1 := with_app (toggleLiveUpdate (app w)) w).
  assert (Hi : idle (app w1)) by (right; split; assumption).
  assert (Hs1 : slot w1) by (eapply slot_ext; [| |exact Hs]; reflexivity).
  assert (Hc1 : deps_changed w1 = true).
  { apply (@deps_changed_by w1 (deps (app w))); [exact Hd|].
    intro E. apply (f_equal d_isLiveUpdate) in E. cbn in E.
    rewrite Hl in E. discriminate. }
  destruct (commit_idle Hi Hs1 (or_intror Hc1)) as [Ca [Cp [_ [Ct _]]]].
  assert (He : forall dt : N,
             step (Elapse dt) (commit w1) = advance dt (commit w1))
    by (intro dt; now apply elapse_no_timer).
  rewrite Ca, Cp, Ct. subst w1. cbn [app with_app pending].
  split; [cbn; now rewrite Hl|]. repeat split. exact He.
Qed.

Lemma X16_live_update_idle_after_incomplete_rescan_witness :
  let w := run (Fixture.whole_scan
                ++ [ClickStart; Settle 0 (Rejected "timeout")])
               initialWorld in
  let w' := step ClickLiveUpdate w in
  reachable w
  /\ List.length (holders (app w)) = 2
  /\ complete (fetchStatus (app w)) = false
  /\ isLiveUpdate (app w') = true
  /\ timers w' = [] /\ pending w' = []
  /\ step (Elapse 60000) w' = advance 60000 w'.
Proof.
  intros w w'.
  assert (Hr : reachable w) by (apply reachable_run; constructor).
  assert (Hl : isLiveUpdate (app w) = false) by (vm_compute; reflexivity).
  assert (Hf : isFetching (fetchStatus (app w)) = false)
    by (vm_compute; reflexivity).
  assert (Hk : complete (fetchStatus (app w)) = false)
    by (vm_compute; reflexivity).
  assert (Hh : holders (app w) <> []) by (vm_compute; discriminate).
  assert (Hp : pending w = []) by (vm_compute; reflexivity).
  destruct (@X16_live_update_idle_after_incomplete_rescan w Hr Hl Hf Hk Hh)
    as [H1 [_ [H3 [H4 H5]]]].
  split; [exact Hr|]. split; [vm_compute; reflexivity|]. split; [exact Hk|].
  split; [exact H1|]. split; [exact H4|].
  split; [exact (eq_trans H3 Hp) | apply H5].
Defined.

(* ================================================================= *)
(** ** Pages *)

Lemma holdersBatch_app (l1 l2 : list XRPLTrustline) :
  holdersBatch (l1 ++ l2) = holdersBatch l1 ++ holdersBatch l2.
Proof. unfold holdersBatch. now rewrite map_app, filter_app. Qed.

Lemma gathered_concat (pages : list Batch) :
  gathered pages = holdersBatch (List.concat (map lines pages)).
Proof.
  unfold gathered. induction pages as [|b pages IH]; [reflexivity|].
  cbn [map List.concat]. now rewrite holdersBatch_app, IH.
Qed.

(** X17: how the records are cut into pages does not matter to the
    result: a scan that runs through its pages without being cancelled
    publishes the list that a single last page carrying all the
    records, in the same order, would publish. *)
Theorem X17_paging_does_not_matter :
  forall (pages : list Batch) (b : Batch) (sc : Scan) (now : N) (st : App),
    Forall continuing pages -> marker_truthy (nextMarker b) = false ->
    aborted st = false ->
    let all := mkBatch (List.concat (map lines (pages ++ [b]))) None in
    snd (feed (map Fulfilled (pages ++ [b])) sc now st) = Completed
    /\ holders (fst (feed (map Fulfilled (pages ++ [b])) sc now st))
       = holders (fst (resume (Fulfilled all) sc now st)).
Proof.
  intros pages b sc now st Hp Hb Ha all.
  destruct (@feed_complete pages b sc now st Hp Hb Ha) as [st' [Hf [Hh _]]].
  rewrite Hf. cbn [fst snd]. split; [reflexivity|].
  rewrite Hh.
  rewrite (@resume_last all sc now st eq_refl). cbv zeta. subst all.
  cbn [fst lines].
  rewrite processResults_holders. now rewrite gathered_concat.
Qed.

Lemma X17_paging_does_not_matter_witness :
  let sc := mkScan (render initialApp) [] None false in
  let all := mkBatch (lines Fixture.page1 ++ lines Fixture.page2) None in
  Forall continuing [Fixture.page1]
  /\ aborted initialApp = false
  /\ holders (fst (feed (map Fulfilled [Fixture.page1; Fixture.page2]) sc 0%N
                     initialApp))
     = holders (fst (resume (Fulfilled all) sc 0%N initialApp)).
Proof.
  intros sc all.
  assert (Hp : Forall continuing [Fixture.page1]) by (repeat constructor).
  split; [exact Hp|]. split; [reflexivity|].
  exact (proj2 (@X17_paging_does_not_matter [Fixture.page1] Fixture.page2 sc
                  0%N initialApp Hp eq_refl eq_refl)).
Defined.
